(** * BFGS optimiser of [ex1-5.ipynb]: shallow embedding and properties

    The notebook defines [BFGSOutput], [bfgs_step] (step-size selection) and
    [bfgs] (the quasi-Newton loop), and a test objective [f].

    Numbers.  The code computes with numpy [float64].  They are modelled by
    [xnum]: exact rationals ([Qc]) extended with the IEEE special values
    [+inf], [-inf] and [NaN], with the IEEE rules for the special values
    (division by zero, [inf - inf], [0 * inf], comparisons with [NaN]).
    Rounding, overflow, underflow and signed zeros are not modelled, with
    one exception: the step size of the Armijo rule underflows to 0 after
    1075 halvings, as it does in [float64].

    Arrays.  A 1-D array is a [list xnum], a 2-D array a list of rows.
    numpy raises on operands whose shapes do not match; the list operations
    here stop at the shorter operand.  In a run all arrays have the dimension
    [n] of the initial point as long as the gradient keeps the shape of its
    argument, which autograd's does.

    Evaluators.  [f] is a pure function.  [df] stands for [grad(f)],
    [minimize_scalar] for scipy's function and [la_norm_lt] for the test
    [la.norm(v) < tol] as scipy computes it; the three are parameters.
    [scipy.linalg.norm] raises [ValueError] on an array that holds [inf] or
    [NaN]: [la_norm_lt] answers [None] then, and so does the run.
    [exact_norm_lt] is the test evaluated without rounding.  The embedding of
    [bfgs_step] also returns the number of calls of [f] that its own lines
    make.

    Rounding.  Statements that depend on the rounding of [float64] are made
    in the module [F64], which evaluates lines 137 to 143 of [bfgs] on
    binary64 numbers.

    Loops.  The [while] loop of the Armijo rule has no bound in the source;
    the embedding gives it a [fuel] (number of loop tests allowed) and
    returns [None] when the fuel runs out.  For finite data 1076 tests are
    enough ([armijo_terminates]). *)

From Stdlib Require Import List Bool Arith Lia QArith Qcanon.
From Stdlib Require Import Floats.
Import ListNotations.

Local Open Scope nat_scope.

(** ** Extended numbers *)

Inductive xnum : Type :=
| Fin (q : Qc)
| PInf
| NInf
| NaN.

Declare Scope xnum_scope.
Delimit Scope xnum_scope with X.
Bind Scope xnum_scope with xnum.

Definition is_finite (a : xnum) : bool :=
  match a with Fin _ => true | _ => false end.

Definition nonfinite (a : xnum) : Prop := is_finite a = false.

(** Sign of a number that is not [NaN]. *)
Definition sign (a : xnum) : comparison :=
  match a with
  | Fin q => (q ?= 0)%Qc
  | PInf => Gt
  | NInf => Lt
  | NaN => Eq
  end.

Definition sign_mul (s t : comparison) : comparison :=
  match s, t with
  | Eq, _ | _, Eq => Eq
  | Gt, Gt | Lt, Lt => Gt
  | _, _ => Lt
  end.

(** The infinity of a given sign; [NaN] for the sign of zero. *)
Definition inf_of (s : comparison) : xnum :=
  match s with Gt => PInf | Lt => NInf | Eq => NaN end.

Definition xopp (a : xnum) : xnum :=
  match a with
  | Fin q => Fin (- q)
  | PInf => NInf
  | NInf => PInf
  | NaN => NaN
  end.

Definition xadd (a b : xnum) : xnum :=
  match a, b with
  | NaN, _ | _, NaN => NaN
  | Fin p, Fin q => Fin (p + q)
  | PInf, NInf | NInf, PInf => NaN
  | PInf, _ | _, PInf => PInf
  | NInf, _ | _, NInf => NInf
  end.

Definition xsub (a b : xnum) : xnum := xadd a (xopp b).

Definition xmul (a b : xnum) : xnum :=
  match a, b with
  | NaN, _ | _, NaN => NaN
  | Fin p, Fin q => Fin (p * q)
  | _, _ => inf_of (sign_mul (sign a) (sign b))
  end.

Definition xdiv (a b : xnum) : xnum :=
  match a, b with
  | NaN, _ | _, NaN => NaN
  | Fin p, Fin q =>
      if Qc_eq_bool q 0 then inf_of (sign a) else Fin (p / q)
  | Fin _, _ => Fin 0
  | _, Fin q =>
      if Qc_eq_bool q 0 then a else inf_of (sign_mul (sign a) (sign b))
  | _, _ => NaN
  end.

Definition Qcltb (p q : Qc) : bool :=
  match (p ?= q)%Qc with Lt => true | _ => false end.

Definition Qcleb (p q : Qc) : bool :=
  match (p ?= q)%Qc with Gt => false | _ => true end.

Definition xltb (a b : xnum) : bool :=
  match a, b with
  | NaN, _ | _, NaN => false
  | Fin p, Fin q => Qcltb p q
  | NInf, NInf | PInf, _ | _, NInf => false
  | _, _ => true
  end.

Definition xleb (a b : xnum) : bool :=
  match a, b with
  | NaN, _ | _, NaN => false
  | Fin p, Fin q => Qcleb p q
  | NInf, _ | _, PInf => true
  | _, _ => false
  end.

(** Python's [a > b]. *)
Definition xgtb (a b : xnum) : bool := xltb b a.

Definition xeqb (a b : xnum) : bool :=
  match a, b with
  | Fin p, Fin q => Qc_eq_bool p q
  | PInf, PInf | NInf, NInf | NaN, NaN => true
  | _, _ => false
  end.

Infix "+" := xadd : xnum_scope.
Infix "-" := xsub : xnum_scope.
Infix "*" := xmul : xnum_scope.
Infix "/" := xdiv : xnum_scope.
Notation "- a" := (xopp a) : xnum_scope.

Definition xzero : xnum := Fin 0.
Definition xone : xnum := Fin 1.
Definition xtwo : xnum := Fin (Q2Qc 2).
(** The literal [0.5]. *)
Definition xhalf : xnum := Fin (Q2Qc (1 # 2)).

(** The number [2^-k]. *)
Definition two_pow_neg (k : nat) : xnum := Fin (Q2Qc (1 # 2) ^ k)%Qc.

(** The smallest positive [float64], [2^-1074]. *)
Definition min_positive : xnum := two_pow_neg 1074.

(** [alpha *= 0.5] in [float64], on the values the Armijo loop visits: a
    power of two above [2^-1074] is halved exactly, and the half of
    [2^-1074] rounds to 0. *)
Definition halve (alpha : xnum) : xnum :=
  if xeqb alpha min_positive then xzero else (alpha * xhalf)%X.

(** The value of [alpha] after [k] halvings from 1. *)
Definition alpha_at (k : nat) : xnum :=
  if k <=? 1074 then two_pow_neg k else xzero.

(** ** Arrays *)

Definition vec := list xnum.
Definition matrix := list (list xnum).

(** [np.dot(p, q)] and [p @ q] on 1-D arrays. *)
Fixpoint dot (p q : vec) : xnum :=
  match p, q with
  | a :: p', b :: q' => (a * b + dot p' q')%X
  | _, _ => xzero
  end.

(** [a + b], [a - b] on 1-D arrays of one shape. *)
Fixpoint vec_add (a b : vec) : vec :=
  match a, b with
  | u :: a', v :: b' => (u + v)%X :: vec_add a' b'
  | _, _ => []
  end.

Fixpoint vec_sub (a b : vec) : vec :=
  match a, b with
  | u :: a', v :: b' => (u - v)%X :: vec_sub a' b'
  | _, _ => []
  end.

(** [s * v], scalar times 1-D array. *)
Definition vec_scale (s : xnum) (v : vec) : vec := map (xmul s) v.

(** [np.eye(n)]. *)
Definition eye (n : nat) : matrix :=
  map (fun i => map (fun j => if i =? j then xone else xzero) (seq 0 n)) (seq 0 n).

(** [A - s], a scalar broadcast over a 2-D array. *)
Definition mat_sub_scalar (A : matrix) (s : xnum) : matrix :=
  map (map (fun a => (a - s)%X)) A.

(** [A *= s] and [A * s]. *)
Definition mat_scale (A : matrix) (s : xnum) : matrix :=
  map (map (fun a => (a * s)%X)) A.

(** [- A]. *)
Definition mat_neg (A : matrix) : matrix := map (map xopp) A.

(** [A @ v]. *)
Definition mat_vec (A : matrix) (v : vec) : vec := map (fun r => dot r v) A.

Definition ncols (A : matrix) : nat := length (hd [] A).

Definition col (j : nat) (A : matrix) : vec := map (fun r => nth j r xzero) A.

(** [A @ B]. *)
Definition mat_mul (A B : matrix) : matrix :=
  map (fun r => map (fun j => dot r (col j B)) (seq 0 (ncols B))) A.

(** The Euclidean norm [sqrt (sum v_i^2)] compared with [tol], without
    rounding.  For finite entries [sqrt s < t] is decided as [0 < t] and
    [s < t * t]; a norm that is [inf] or [NaN] is below no tolerance. *)
Definition norm_lt (v : vec) (tol : xnum) : bool :=
  match dot v v, tol with
  | Fin s, Fin t => Qcltb 0 t && Qcltb s (t * t)
  | Fin _, PInf => true
  | _, _ => false
  end.

(** [la.norm(v) < tol] evaluated without rounding.  [scipy.linalg.norm]
    checks its argument ([check_finite=True]) and raises [ValueError] when an
    entry is [inf] or [NaN]: the result is [None] then. *)
Definition exact_norm_lt (v : vec) (tol : xnum) : option bool :=
  if forallb is_finite v then Some (norm_lt v tol) else None.

(** ** [class BFGSOutput] *)

(** An object of the class.  [history = None] is an object that has no
    [history] attribute. *)
Record BFGSOutput : Type := mkBFGSOutput {
  x : vec;
  fx : xnum;
  converged : bool;
  iter : nat;
  history : option (list vec)
}.

(** [__init__(self, x, fx, converged, iter)]. *)
Definition BFGSOutput_init (x : vec) (fx : xnum) (converged : bool) (iter : nat)
  : BFGSOutput :=
  mkBFGSOutput x fx converged iter None.

(** [add_history(self, history)]: assigns the attribute on the object. *)
Definition add_history (self : BFGSOutput) (h : list vec) : BFGSOutput :=
  mkBFGSOutput (x self) (fx self) (converged self) (iter self) (Some h).

(** ** [bfgs_step] *)

(** The strings ["full"], ["exact"] and ["Armijo"].  With any other string
    [bfgs_step] falls through all branches; such calls are not modelled. *)
Inductive method : Type := Full | Exact | Armijo.

(** The part of scipy's result object that is used, [.x], and its count of
    evaluations of the function it was given. *)
Record OptimizeResult : Type := mkOptimizeResult {
  res_x : xnum;
  nfev : nat
}.

Section Optimiser.

(** [scipy.optimize.minimize_scalar], a library function. *)
Variable minimize_scalar : (xnum -> xnum) -> OptimizeResult.

(** [la.norm(v) < tol] with [scipy.linalg.norm], a library function: the
    value of the comparison, or [None] when [la.norm] raises. *)
Variable la_norm_lt : vec -> xnum -> option bool.

Section Step.

Variable f : vec -> xnum.
Variable df : vec -> vec.
Variable x : vec.
Variable search_direction : vec.
Variable armijo_param : xnum.

Definition line_search (alpha : xnum) : xnum :=
  f (vec_add x (vec_scale alpha search_direction)).

(** The test of the [while] loop:
    [line_search(alpha) > f(x) + armijo_param * alpha * np.dot(df(x), search_direction)]. *)
Definition armijo_test (alpha : xnum) : bool :=
  xgtb (line_search alpha)
       (f x + armijo_param * alpha * dot (df x) search_direction)%X.

(** The Armijo sufficient-decrease condition at [alpha]:
    [f(x + alpha*d) <= f(x) + armijo_param * alpha * dot(df(x), d)]. *)
Definition sufficient_decrease (alpha : xnum) : bool :=
  xleb (line_search alpha)
       (f x + armijo_param * alpha * dot (df x) search_direction)%X.

(** The [while] loop from the value [alpha]; [evals] counts the calls of [f]
    that the lines of [bfgs_step] have made so far: [line_search(alpha)] and
    [f(x)] in each test.  Calls that [df] makes inside are not counted. *)
Fixpoint armijo_while (fuel : nat) (alpha : xnum) (evals : nat)
  : option (xnum * nat) :=
  match fuel with
  | O => None
  | S fuel' =>
      if armijo_test alpha
      then armijo_while fuel' (halve alpha) (evals + 2)
      else Some (alpha, evals + 2)
  end.

(** [bfgs_step].  The result is the step size together with the number of
    calls of [f] that were made to compute it. *)
Definition bfgs_step (fuel : nat) (m : method) : option (xnum * nat) :=
  match m with
  | Full => Some (xone, 0)
  | Exact =>
      let r := minimize_scalar line_search in
      Some (res_x r, nfev r)
  | Armijo => armijo_while fuel xone 0
  end.

End Step.

(** ** [bfgs] *)

Section Run.

Variable fuel : nat.
Variable f : vec -> xnum.
(** [df = grad(f)], the gradient that autograd derives from [f]. *)
Variable df : vec -> vec.
Variable x0 : vec.
Variable m : method.
Variable armijo_param : xnum.
(** The cap is a count of iterations: [range(max_iter)] is taken for
    [max_iter >= 0]. *)
Variable max_iter : nat.
Variable tol : xnum.
Variable save_history : bool.

(** [n = x0.size]. *)
Definition n : nat := length x0.

(** One pass through the body of the [for] loop after the convergence test:
    from the search direction to the new [H_inv]. *)
Definition bfgs_body (iter : nat) (x : vec) (H_inv : matrix)
  : option (vec * matrix) :=
  let search_direction := mat_vec (mat_neg H_inv) (df x) in
  match bfgs_step f df x search_direction armijo_param fuel m with
  | None => None
  | Some (step_size, _) =>
      let x_old := x in
      let x := vec_add x (vec_scale step_size search_direction) in
      let p := vec_sub x x_old in
      let q := vec_sub (df x) (df x_old) in
      let rho := (xone / dot p q)%X in
      let H_inv :=
        if iter =? 0 then mat_scale H_inv (dot p q / dot q q)%X else H_inv in
      let M := mat_sub_scalar (eye n) (dot (vec_scale rho p) q) in
      Some (x, mat_mul (mat_mul M H_inv) M)
  end.

(** The [for] loop over the remaining indices [iters].  The result is the
    final [x], [converged], [n_iter] and [history]; there is none when
    [la.norm] raises or the step size is not returned. *)
Fixpoint bfgs_for (iters : list nat) (x : vec) (H_inv : matrix)
  (history : list vec) : option (vec * bool * nat * list vec) :=
  match iters with
  | [] => Some (x, false, max_iter, history)
  | iter :: rest =>
      let history := if save_history then history ++ [x] else history in
      match la_norm_lt (df x) tol with
      | None => None
      | Some true => Some (x, true, iter, history)
      | Some false =>
          match bfgs_body iter x H_inv with
          | None => None
          | Some (x, H_inv) => bfgs_for rest x H_inv history
          end
      end
  end.

(** [k] passes through the body from index [start], without the
    convergence test: the iterates and matrices the loop visits. *)
Fixpoint run_bodies (start k : nat) (x : vec) (H_inv : matrix)
  : option (vec * matrix) :=
  match k with
  | O => Some (x, H_inv)
  | S k' =>
      match bfgs_body start x H_inv with
      | None => None
      | Some (x, H_inv) => run_bodies (S start) k' x H_inv
      end
  end.

(** The state [(x, H_inv)] at the start of iteration [k]. *)
Definition iterate (k : nat) : option (vec * matrix) :=
  run_bodies 0 k x0 (eye n).

(** The successive states of the object bound to [out] in the last four
    lines of [bfgs]: after the constructor, and after [add_history] when it
    is called. *)
Definition out_states (x : vec) (converged : bool) (n_iter : nat)
  (history : list vec) : list BFGSOutput :=
  let out := BFGSOutput_init x (f x) converged n_iter in
  if save_history then [out; add_history out history] else [out].

Definition bfgs_states : option (list BFGSOutput) :=
  match bfgs_for (seq 0 max_iter) x0 (eye n) [] with
  | None => None
  | Some (x, converged, n_iter, history) =>
      Some (out_states x converged n_iter history)
  end.

(** [bfgs]: the object that is returned is [out] in its last state. *)
Definition bfgs : option BFGSOutput :=
  match bfgs_states with
  | None => None
  | Some states => last (map Some states) None
  end.

End Run.

End Optimiser.

(** ** The test objective of the notebook *)

Module Sheet.

(** [x[i]]; an index out of range raises in Python and is [NaN] here. *)
Definition item (v : vec) (i : nat) : xnum := nth i v NaN.

(** [f(x) = x[0]**2 + x[1]**2]. *)
Definition f (v : vec) : xnum :=
  (item v 0 * item v 0 + item v 1 * item v 1)%X.

(** [grad(f)]: the gradient [(2 x[0], 2 x[1], 0, ..., 0)] of [f]. *)
Definition df (v : vec) : vec :=
  (xtwo * item v 0)%X :: (xtwo * item v 1)%X :: repeat xzero (length v - 2).

End Sheet.

(** The default [tol = 1e-5]. *)
Definition tol_default : xnum := Fin (Q2Qc (1 # 100000)).

(** A stand-in for scipy's minimiser in closed examples that do not use the
    exact line search. *)
Definition minimize_scalar_stub (g : xnum -> xnum) : OptimizeResult :=
  mkOptimizeResult xzero 0.

Fixpoint vec_eqb (a b : vec) : bool :=
  match a, b with
  | [], [] => true
  | u :: a', v :: b' => xeqb u v && vec_eqb a' b'
  | _, _ => false
  end.

Fixpoint mat_eqb (A B : matrix) : bool :=
  match A, B with
  | [], [] => true
  | r :: A', s :: B' => vec_eqb r s && mat_eqb A' B'
  | _, _ => false
  end.

(** ** The update of [H_inv] in the words of the specification *)

(** Elementwise [A - B] on 2-D arrays of one shape. *)
Fixpoint mat_sub (A B : matrix) : matrix :=
  match A, B with
  | r :: A', s :: B' => vec_sub r s :: mat_sub A' B'
  | _, _ => []
  end.

(** The [n] by [n] matrix of ones. *)
Definition ones (n : nat) : matrix := repeat (repeat xone n) n.

(** The outer product of the column [p] with the row [q^T]: entry [(i, j)]
    is [p_i * q_j]. *)
Definition outer (p q : vec) : matrix :=
  map (fun a => map (fun b => (a * b)%X) q) p.

(** [(I - rho * p (x) q) @ H_inv @ (I - rho * p (x) q)]. *)
Definition update_as_specified (n : nat) (rho : xnum) (p q : vec)
  (H_inv : matrix) : matrix :=
  let M := mat_sub (eye n) (map (map (xmul rho)) (outer p q)) in
  mat_mul (mat_mul M H_inv) M.

(** ** Predicates used by the statements *)

(** An [n] by [n] array. *)
Definition square (n : nat) (A : matrix) : Prop :=
  length A = n /\ Forall (fun r => length r = n) A.

(** An [n] by [n] array whose entries are all [inf] or [NaN]. *)
Definition poisoned (n : nat) (A : matrix) : Prop :=
  square n A /\ Forall (Forall nonfinite) A.

(** The shape of line 143, [M @ H_inv @ M] for [M = np.eye(k) - s]. *)
Definition conjugate (k : nat) (s : xnum) (H_inv : matrix) : matrix :=
  mat_mul (mat_mul (mat_sub_scalar (eye k) s) H_inv)
          (mat_sub_scalar (eye k) s).

(** A 1-D array whose entries are all finite. *)
Definition finite_vec (v : vec) : Prop :=
  Forall (fun a => is_finite a = true) v.

(** Row [i] of [- np.eye], over the columns [s, s+1, ...]. *)
Definition neg_unit_row (i s len : nat) : vec :=
  map xopp (map (fun j => if i =? j then xone else xzero) (seq s len)).

(** A one-dimensional objective for examples, [f(x) = x[0]**2], with its
    gradient.  It is not part of the notebook. *)
Module Parabola.

Definition f (v : vec) : xnum := (Sheet.item v 0 * Sheet.item v 0)%X.

Definition df (v : vec) : vec :=
  (xtwo * Sheet.item v 0)%X :: repeat xzero (length v - 1).

End Parabola.

(** The life of the result object as the specification words it: the first
    state, made by the constructor, already carries a requested history, and
    no later state differs from it. *)
Definition built_once_with_history (states : list BFGSOutput)
  (save_history : bool) : Prop :=
  match states with
  | [] => False
  | out :: later =>
      (save_history = true -> history out <> None) /\ Forall (eq out) later
  end.

(** The history property as the specification words it, for a returned
    object [out] of a run from [x0] with cap [max_iter]. *)
Definition history_as_specified (out : BFGSOutput) (x0 : vec) (max_iter : nat)
  : Prop :=
  exists h,
    history out = Some h /\
    (converged out = true -> length h = iter out + 1) /\
    (converged out = false -> length h = max_iter) /\
    nth_error h 0 = Some x0.

(** A one-dimensional objective that is not a number outside its domain,
    [f(x) = x[0] + 0 * np.log(x[0])]: [x[0]] for a finite [x[0] > 0] and
    [NaN] elsewhere ([np.log] gives [-inf] at [0] and [NaN] below), with its
    gradient [1 + 0 / x[0]].  It is not part of the notebook. *)
Module Barrier.

Definition f (v : vec) : xnum :=
  match Sheet.item v 0 with
  | Fin a => if Qcltb 0 a then Fin a else NaN
  | _ => NaN
  end.

Definition df (v : vec) : vec :=
  (xone + xzero / Sheet.item v 0)%X :: repeat xzero (length v - 1).

End Barrier.

(** The Armijo selection as the specification words it: where [2^-k] is the
    first step in the halving sequence that satisfies the sufficient-decrease
    inequality, [bfgs_step] returns [2^-k]. *)
Definition armijo_as_specified
  (minimize_scalar : (xnum -> xnum) -> OptimizeResult)
  (f : vec -> xnum) (df : vec -> vec) (x search_direction : vec)
  (armijo_param : xnum) : Prop :=
  forall k : nat,
    sufficient_decrease f df x search_direction armijo_param (two_pow_neg k)
      = true ->
    (forall j, j < k ->
       sufficient_decrease f df x search_direction armijo_param (two_pow_neg j)
         = false) ->
    exists fuel evals,
      bfgs_step minimize_scalar f df x search_direction armijo_param fuel Armijo
        = Some (two_pow_neg k, evals).


(** ** Lines 137 to 143 of [bfgs] on binary64 numbers *)

(** The update of [H_inv] from a secant pair [p], [q] with the operations of
    [float64], each rounded to nearest.  [np.dot] and [@] add the products
    from left to right. *)
Module F64.

Definition vec := list float.
Definition matrix := list (list float).

Definition dot (p q : vec) : float :=
  fold_left (fun acc ab => (acc + fst ab * snd ab)%float) (combine p q)
            0%float.

Definition vec_scale (s : float) (v : vec) : vec :=
  map (fun a => (s * a)%float) v.

Definition eye (n : nat) : matrix :=
  map (fun i => map (fun j => if i =? j then 1%float else 0%float) (seq 0 n))
      (seq 0 n).

Definition ones (n : nat) : matrix := repeat (repeat 1%float n) n.

Definition mat_sub_scalar (A : matrix) (s : float) : matrix :=
  map (map (fun a => (a - s)%float)) A.

Definition mat_scale (A : matrix) (s : float) : matrix :=
  map (map (fun a => (a * s)%float)) A.

Definition mat_sub (A B : matrix) : matrix :=
  map (fun rs => map (fun ab => (fst ab - snd ab)%float)
                     (combine (fst rs) (snd rs)))
      (combine A B).

Definition col (j : nat) (A : matrix) : vec :=
  map (fun r => nth j r 0%float) A.

Definition mat_mul (A B : matrix) : matrix :=
  map (fun r => map (fun j => dot r (col j B)) (seq 0 (length (hd [] B)))) A.





End F64.

(** * Properties *)

Lemma xeqb_eq (a b : xnum) : xeqb a b = true -> a = b.
Proof.
  destruct a, b; simpl; try discriminate; try reflexivity.
  intro H. apply Qc_eq_bool_correct in H. now subst.
Qed.

Lemma vec_eqb_eq (a b : vec) : vec_eqb a b = true -> a = b.
Proof.
  revert b. induction a as [|u a IH]; intros [|v b]; simpl;
    try discriminate; try reflexivity.
  intro H. apply andb_true_iff in H as [H1 H2].
  apply xeqb_eq in H1. apply IH in H2. now subst.
Qed.

Lemma mat_eqb_eq (A B : matrix) : mat_eqb A B = true -> A = B.
Proof.
  revert B. induction A as [|r A IH]; intros [|s B]; simpl;
    try discriminate; [reflexivity|].
  intro E. apply andb_prop in E as [E1 E2].
  apply vec_eqb_eq in E1. apply IH in E2. now subst.
Qed.

Lemma xeqb_refl (a : xnum) : xeqb a a = true.
Proof.
  destruct a; simpl; try reflexivity.
  unfold Qc_eq_bool. destruct (Qc_eq_dec q q); congruence.
Qed.

Lemma vec_eqb_refl (a : vec) : vec_eqb a a = true.
Proof.
  induction a as [|u a IH]; simpl; [reflexivity|].
  now rewrite xeqb_refl, IH.
Qed.

Lemma mat_eqb_refl (A : matrix) : mat_eqb A A = true.
Proof.
  induction A as [|r A IH]; simpl; [reflexivity|].
  now rewrite vec_eqb_refl, IH.
Qed.

(** ** Algebra of the finite numbers, without rounding *)

Lemma xadd_finite (a b : xnum) (d : Qc) :
  (a + b)%X = Fin d -> exists u v, a = Fin u /\ b = Fin v /\ d = (u + v)%Qc.
Proof.
  destruct a, b; simpl; try discriminate. intro E. injection E as <-. eauto.
Qed.

Lemma xmul_finite (a b : xnum) (d : Qc) :
  (a * b)%X = Fin d -> exists u v, a = Fin u /\ b = Fin v /\ d = (u * v)%Qc.
Proof.
  destruct a as [u| | |], b as [v| | |]; simpl; try discriminate.
  - intro E. injection E as <-. eauto.
  - destruct (u ?= 0)%Qc; discriminate.
  - destruct (u ?= 0)%Qc; discriminate.
  - destruct (v ?= 0)%Qc; discriminate.
  - destruct (v ?= 0)%Qc; discriminate.
Qed.

(** [(r * p) @ q = r * (p @ q)] when [p @ q] is finite. *)
Lemma dot_scale_finite (r : Qc) :
  forall p q d,
    dot p q = Fin d -> dot (vec_scale (Fin r) p) q = Fin (r * d).
Proof.
  induction p as [|a p IH]; intros [|b q] d E; simpl in *;
    try (injection E as <-; unfold xzero; f_equal; ring).
  apply xadd_finite in E as (u & v & Eu & Ev & ->).
  apply xmul_finite in Eu as (a' & b' & -> & -> & ->).
  rewrite (IH q v Ev). simpl. f_equal. ring.
Qed.

Lemma xdiv_one_finite (d : Qc) : d <> 0%Qc -> (xone / Fin d)%X = Fin (/ d).
Proof.
  intro Hd. unfold xone. simpl. unfold Qc_eq_bool.
  destruct (Qc_eq_dec d 0) as [E|_]; [contradiction|].
  f_equal. unfold Qcdiv. apply Qcmult_1_l.
Qed.

(** Without rounding, [rho * p @ q.T] is the number 1 when [p @ q] is finite
    and not zero.  In [float64] it is 1 only up to rounding. *)
Lemma rho_p_q_is_one (p q : vec) (d : Qc) :
  dot p q = Fin d -> d <> 0%Qc ->
  dot (vec_scale (xone / dot p q) p) q = xone.
Proof.
  intros E Hd. rewrite E at 1. rewrite (xdiv_one_finite d Hd).
  rewrite (dot_scale_finite (/ d) p q d E). unfold xone. f_equal.
  now apply Qcmult_inv_l.
Qed.



Lemma eye_square (k : nat) : square k (eye k).
Proof.
  unfold square, eye. split.
  - now rewrite length_map, length_seq.
  - apply Forall_forall. intros r Hr. apply in_map_iff in Hr as (i & <- & _).
    now rewrite length_map, length_seq.
Qed.



(** ** Values that are not finite *)

Lemma inf_of_nonfinite (s : comparison) : nonfinite (inf_of s).
Proof. now destruct s. Qed.

Lemma xopp_nonfinite (a : xnum) : nonfinite a -> nonfinite (- a)%X.
Proof. now destruct a. Qed.

Lemma xadd_nonfinite_l (a b : xnum) : nonfinite a -> nonfinite (a + b)%X.
Proof. destruct a, b; simpl; intro E; try reflexivity; discriminate E. Qed.

Lemma xadd_nonfinite_r (a b : xnum) : nonfinite b -> nonfinite (a + b)%X.
Proof. destruct a, b; simpl; intro E; try reflexivity; discriminate E. Qed.

Lemma xsub_nonfinite_l (a b : xnum) : nonfinite a -> nonfinite (a - b)%X.
Proof. intro E. now apply xadd_nonfinite_l. Qed.

Lemma xsub_nonfinite_r (a b : xnum) : nonfinite b -> nonfinite (a - b)%X.
Proof. intro E. now apply xadd_nonfinite_r, xopp_nonfinite. Qed.

Lemma xmul_nonfinite_l (a b : xnum) : nonfinite a -> nonfinite (a * b)%X.
Proof.
  destruct a, b; intro E; try discriminate E; try reflexivity;
    apply inf_of_nonfinite.
Qed.

Lemma xmul_nonfinite_r (a b : xnum) : nonfinite b -> nonfinite (a * b)%X.
Proof.
  destruct a, b; intro E; try discriminate E; try reflexivity;
    apply inf_of_nonfinite.
Qed.

Lemma dot_nonfinite_l (a b : xnum) (r c : vec) :
  nonfinite a -> nonfinite (dot (a :: r) (b :: c)).
Proof. intro E. simpl. now apply xadd_nonfinite_l, xmul_nonfinite_l. Qed.

Lemma dot_nonfinite_r (a b : xnum) (r c : vec) :
  nonfinite b -> nonfinite (dot (a :: r) (b :: c)).
Proof. intro E. simpl. now apply xadd_nonfinite_l, xmul_nonfinite_r. Qed.

Lemma vec_add_nonfinite_r (a b : vec) :
  Forall nonfinite b -> Forall nonfinite (vec_add a b).
Proof.
  intro Hb. revert a. induction Hb as [|v b Hv _ IH]; intros [|u a]; simpl;
    constructor; [now apply xadd_nonfinite_r | apply IH].
Qed.

Lemma vec_sub_nonfinite_l (a b : vec) :
  Forall nonfinite a -> Forall nonfinite (vec_sub a b).
Proof.
  intro Ha. revert b. induction Ha as [|u a Hu _ IH]; intros [|v b]; simpl;
    constructor; [now apply xsub_nonfinite_l | apply IH].
Qed.

Lemma vec_scale_nonfinite (s : xnum) (v : vec) :
  Forall nonfinite v -> Forall nonfinite (vec_scale s v).
Proof.
  unfold vec_scale. induction 1; simpl; constructor;
    [now apply xmul_nonfinite_r | assumption].
Qed.

(** ** Shapes *)

Lemma length_vec_add (a b : vec) :
  length (vec_add a b) = Nat.min (length a) (length b).
Proof.
  revert b. induction a as [|u a IH]; intros [|v b]; simpl; auto.
Qed.

Lemma length_vec_sub (a b : vec) :
  length (vec_sub a b) = Nat.min (length a) (length b).
Proof.
  revert b. induction a as [|u a IH]; intros [|v b]; simpl; auto.
Qed.

Lemma length_mat_vec (A : matrix) (v : vec) : length (mat_vec A v) = length A.
Proof. apply length_map. Qed.

Lemma mat_scale_square (k : nat) (A : matrix) (s : xnum) :
  square k A -> square k (mat_scale A s).
Proof.
  intros [Hl Hr]. unfold mat_scale. split; [now rewrite length_map|].
  apply Forall_map. revert Hr. apply Forall_impl. intros r Hr.
  now rewrite length_map.
Qed.

Lemma mat_sub_scalar_square (k : nat) (A : matrix) (s : xnum) :
  square k A -> square k (mat_sub_scalar A s).
Proof.
  intros [Hl Hr]. unfold mat_sub_scalar. split; [now rewrite length_map|].
  apply Forall_map. revert Hr. apply Forall_impl. intros r Hr.
  now rewrite length_map.
Qed.

Lemma square_ncols (k : nat) (A : matrix) : square k A -> ncols A = k.
Proof.
  intros [Hl Hr]. unfold ncols. destruct A as [|r A]; simpl in *.
  - exact Hl.
  - now inversion Hr.
Qed.

Lemma mat_mul_square (k : nat) (A B : matrix) :
  length A = k -> square k B -> square k (mat_mul A B).
Proof.
  intros Hl HB. unfold mat_mul. split; [now rewrite length_map|].
  apply Forall_map, Forall_forall. intros r _.
  now rewrite length_map, length_seq, (square_ncols k B HB).
Qed.

Lemma conjugate_square (k : nat) (s : xnum) (H_inv : matrix) :
  square k (conjugate k s H_inv).
Proof.
  unfold conjugate. apply mat_mul_square.
  - unfold mat_mul. rewrite length_map.
    apply (mat_sub_scalar_square k (eye k) s (eye_square k)).
  - apply mat_sub_scalar_square, eye_square.
Qed.

(** A product whose right factor has only entries that are not finite has
    only such entries, when the rows of the left factor are not empty. *)
Lemma mat_mul_nonfinite_r (A B : matrix) :
  Forall (fun r => r <> []) A ->
  B <> [] ->
  Forall (Forall nonfinite) B ->
  Forall (Forall nonfinite) (mat_mul A B).
Proof.
  intros HA HB HnB. unfold mat_mul. apply Forall_map.
  revert HA. apply Forall_impl. intros [|a r] Hr; [contradiction|].
  apply Forall_map, Forall_forall. intros j Hj.
  apply in_seq in Hj as [_ Hj]. simpl in Hj.
  destruct B as [|b0 B]; [contradiction|]. unfold ncols in Hj. simpl in Hj.
  unfold col. simpl. apply dot_nonfinite_r.
  inversion HnB as [|? ? Hb0 _]; subst.
  rewrite Forall_forall in Hb0. apply Hb0, nth_In, Hj.
Qed.

(** The update leaves only entries that are not finite when [s] is not
    finite. *)
Lemma conjugate_poisoned (k : nat) (s : xnum) (H_inv : matrix) :
  (0 < k -> nonfinite s) -> square k H_inv -> poisoned k (conjugate k s H_inv).
Proof.
  intros Hs HH. split; [apply conjugate_square|].
  destruct k as [|k]; [constructor|].
  specialize (Hs (Nat.lt_0_succ k)).
  unfold conjugate. apply mat_mul_nonfinite_r.
  - unfold mat_mul. apply Forall_map, Forall_forall. intros r _.
    rewrite (square_ncols _ _ HH). discriminate.
  - discriminate.
  - unfold mat_sub_scalar. apply Forall_map, Forall_forall. intros r _.
    apply Forall_map, Forall_forall. intros a _. now apply xsub_nonfinite_r.
Qed.

(** ** Step-size selection *)

(** C10: with method [Full], [bfgs_step] returns exactly 1 whatever the
    objective, gradient, iterate and direction are, and makes no call of the
    objective [f]. *)
Theorem bfgs_step_full
  (minimize_scalar : (xnum -> xnum) -> OptimizeResult)
  (f : vec -> xnum) (df : vec -> vec) (x search_direction : vec)
  (armijo_param : xnum) (fuel : nat) :
  bfgs_step minimize_scalar f df x search_direction armijo_param fuel Full
  = Some (xone, 0).
Proof. reflexivity. Qed.

(** ** The halving sequence *)

Lemma half_pow_pos (k : nat) : (0 < Q2Qc (1 # 2) ^ k)%Qc.
Proof.
  induction k as [|k IH]; simpl.
  - reflexivity.
  - rewrite <- (Qcmult_0_l (Q2Qc (1 # 2) ^ k)).
    apply Qcmult_lt_compat_r; [exact IH | reflexivity].
Qed.

Lemma half_pow_step (k : nat) : (Q2Qc (1 # 2) ^ S k < Q2Qc (1 # 2) ^ k)%Qc.
Proof.
  simpl. rewrite <- (Qcmult_1_l (Q2Qc (1 # 2) ^ k)) at 2.
  apply Qcmult_lt_compat_r; [apply half_pow_pos | reflexivity].
Qed.

Lemma half_pow_lt (j k : nat) :
  j < k -> (Q2Qc (1 # 2) ^ k < Q2Qc (1 # 2) ^ j)%Qc.
Proof.
  induction 1 as [|k _ IH].
  - apply half_pow_step.
  - apply Qclt_trans with (2 := IH). apply half_pow_step.
Qed.

Lemma half_pow_le_one (k : nat) : (Q2Qc (1 # 2) ^ k <= 1)%Qc.
Proof.
  destruct k as [|k]; [apply Qcle_refl|].
  apply Qclt_le_weak. exact (half_pow_lt 0 (S k) (Nat.lt_0_succ k)).
Qed.

Lemma two_pow_neg_distinct (j k : nat) :
  j < k -> xeqb (two_pow_neg j) (two_pow_neg k) = false.
Proof.
  intro L. unfold two_pow_neg, xeqb, Qc_eq_bool.
  destruct (Qc_eq_dec _ _) as [E|_]; [|reflexivity].
  pose proof (half_pow_lt j k L) as H. apply Qclt_not_eq in H.
  now symmetry in E.
Qed.

(** The powers of two above [2^-1074] are halved exactly. *)
Lemma halve_two_pow_neg (k : nat) :
  k < 1074 -> halve (two_pow_neg k) = two_pow_neg (S k).
Proof.
  intro L. unfold halve, min_positive.
  rewrite (two_pow_neg_distinct k 1074 L).
  unfold two_pow_neg, xhalf. cbn [xmul Qcpower]. apply (f_equal Fin).
  apply Qcmult_comm.
Qed.

Lemma halve_min_positive : halve min_positive = xzero.
Proof. unfold halve. now rewrite xeqb_refl. Qed.

Lemma halve_zero : halve xzero = xzero.
Proof.
  assert (N : xeqb xzero min_positive = false) by (vm_compute; reflexivity).
  unfold halve. rewrite N. unfold xzero, xhalf. cbn [xmul].
  apply (f_equal Fin). ring.
Qed.

Lemma alpha_at_small (k : nat) : k <= 1074 -> alpha_at k = two_pow_neg k.
Proof.
  intro L. unfold alpha_at. destruct (Nat.leb_spec k 1074); [reflexivity|lia].
Qed.

Lemma alpha_at_large (k : nat) : 1074 < k -> alpha_at k = xzero.
Proof.
  intro L. unfold alpha_at. destruct (Nat.leb_spec k 1074); [lia|reflexivity].
Qed.

(** [alpha *= 0.5] steps along the sequence [1, 1/2, ..., 2^-1074, 0, 0, ...]. *)
Lemma halve_alpha_at (k : nat) : halve (alpha_at k) = alpha_at (S k).
Proof.
  destruct (Nat.lt_total k 1074) as [L|[E|L]].
  - rewrite !alpha_at_small by lia. now apply halve_two_pow_neg.
  - rewrite (alpha_at_small k) by lia. rewrite (alpha_at_large (S k)) by lia.
    rewrite E. exact halve_min_positive.
  - rewrite !alpha_at_large by lia. exact halve_zero.
Qed.

Lemma alpha_at_start : alpha_at 0 = xone.
Proof. reflexivity. Qed.

Lemma Qcltb_true (p q : Qc) : (p < q)%Qc -> Qcltb p q = true.
Proof.
  intro L. unfold Qcltb. now rewrite (proj1 (Qclt_alt p q) L).
Qed.

Lemma Qcleb_true (p q : Qc) : (p <= q)%Qc -> Qcleb p q = true.
Proof.
  intro L. pose proof (proj1 (Qcle_alt p q) L) as L'. unfold Qcleb.
  destruct (p ?= q)%Qc; try reflexivity. now contradiction L'.
Qed.

(** Every value of the sequence is finite and lies between 0 and 1. *)
Lemma alpha_at_range (k : nat) :
  (exists t, alpha_at k = Fin t) /\
  xleb xzero (alpha_at k) = true /\ xleb (alpha_at k) xone = true.
Proof.
  unfold alpha_at. destruct (k <=? 1074).
  - split; [unfold two_pow_neg; eauto|].
    unfold two_pow_neg, xzero, xone, xleb. split.
    + apply Qcleb_true, Qclt_le_weak, half_pow_pos.
    + apply Qcleb_true, half_pow_le_one.
  - split; [unfold xzero; eauto|]. split; reflexivity.
Qed.

Lemma Qcleb_not_gt (p q : Qc) : Qcleb p q = true -> Qcltb q p = false.
Proof.
  unfold Qcleb, Qcltb, Qccompare. rewrite <- (Qcompare_antisym p q).
  destruct (p ?= q)%Q; simpl; congruence.
Qed.

(** A number that is at most [b] is not greater than [b]. *)
Lemma xleb_not_gt (a b : xnum) : xleb a b = true -> xgtb a b = false.
Proof.
  unfold xgtb. destruct a, b; simpl; try congruence. apply Qcleb_not_gt.
Qed.

(** For numbers that are not [NaN], "greater than" is the negation of
    "at most". *)
Lemma xgtb_negb_xleb (a b : xnum) :
  a <> NaN -> b <> NaN -> xgtb a b = negb (xleb a b).
Proof.
  unfold xgtb. destruct a, b; simpl; try congruence; intros _ _.
  unfold Qcleb, Qcltb, Qccompare. rewrite <- (Qcompare_antisym q q0).
  now destruct (q ?= q0)%Q.
Qed.

Section StepFacts.

Variable minimize_scalar : (xnum -> xnum) -> OptimizeResult.
Variable f : vec -> xnum.
Variable df : vec -> vec.
Variable x : vec.
Variable search_direction : vec.
Variable armijo_param : xnum.

Local Abbreviation test := (armijo_test f df x search_direction armijo_param).
Local Abbreviation while_ :=
  (armijo_while f df x search_direction armijo_param).

(** The loop started at the [j]-th value of the sequence stops after [k]
    halvings when the test holds at the [k] values before the [(j+k)]-th and
    fails there. *)
Lemma armijo_while_stops :
  forall k fuel j evals,
    k < fuel ->
    (forall i, i < k -> test (alpha_at (j + i)) = true) ->
    test (alpha_at (j + k)) = false ->
    while_ fuel (alpha_at j) evals
    = Some (alpha_at (j + k), evals + 2 * S k).
Proof.
  induction k as [|k IH]; intros [|fuel] j evals Hlt Hfail Hok; try lia;
    cbn [armijo_while].
  - rewrite Nat.add_0_r in *. rewrite Hok. reflexivity.
  - assert (T : test (alpha_at j) = true).
    { rewrite <- (Nat.add_0_r j). apply Hfail. lia. }
    rewrite T, halve_alpha_at.
    rewrite (IH fuel (S j) (evals + 2)).
    + do 2 f_equal; [f_equal|]; lia.
    + lia.
    + intros i Hi. replace (S j + i) with (j + S i) by lia. apply Hfail. lia.
    + replace (S j + k) with (j + S k) by lia. exact Hok.
Qed.

(** What a returning loop did. *)
Lemma armijo_while_inv :
  forall fuel j evals alpha e,
    while_ fuel (alpha_at j) evals = Some (alpha, e) ->
    exists k,
      k < fuel /\
      alpha = alpha_at (j + k) /\
      test (alpha_at (j + k)) = false /\
      (forall i, i < k -> test (alpha_at (j + i)) = true) /\
      e = evals + 2 * S k.
Proof.
  induction fuel as [|fuel IH]; intros j evals alpha e E;
    cbn [armijo_while] in E; [discriminate|].
  destruct (test (alpha_at j)) eqn:T.
  - rewrite halve_alpha_at in E.
    apply IH in E as (k & Hk & Ea & Ef & Ht & Ee).
    exists (S k). replace (j + S k) with (S j + k) by lia.
    repeat split; try assumption; try lia.
    intros [|i] Hi; [now rewrite Nat.add_0_r|].
    replace (j + S i) with (S j + i) by lia. apply Ht. lia.
  - injection E as <- <-. exists 0. rewrite Nat.add_0_r.
    repeat split; try assumption; try lia.
Qed.

(** The loop is left at a value where its test is false. *)
Lemma armijo_while_exit :
  forall fuel a0 e0 alpha evals,
    while_ fuel a0 e0 = Some (alpha, evals) -> test alpha = false.
Proof.
  induction fuel as [|fuel IH]; intros a0 e0 alpha evals E;
    cbn [armijo_while] in E; [discriminate|].
  destruct (test a0) eqn:T.
  - exact (IH _ _ _ _ E).
  - injection E as <- _. exact T.
Qed.

(** C6 (amended): with method [Armijo], [bfgs_step] starts at [alpha = 1]
    and halves while the loop test
    [f(x + alpha*d) > f(x) + armijo_param*alpha*dot(df(x), d)] is true.  When
    the test is false at [2^-k] and true at every [2^-j] with [j < k], for a
    [k] up to 1074 (the halvings down to [2^-1074] are exact in [float64]),
    [bfgs_step] terminates, given fuel for [k + 1] tests, and returns
    [alpha = 2^-k].  The returned [alpha] satisfies the sufficient-decrease
    inequality [<=] when neither side of the comparison is [NaN]. *)
Theorem armijo_stops_at_first_false_test (k : nat) :
  k <= 1074 ->
  armijo_test f df x search_direction armijo_param (two_pow_neg k) = false ->
  (forall j, j < k ->
     armijo_test f df x search_direction armijo_param (two_pow_neg j) = true) ->
  forall fuel, k < fuel ->
    exists alpha evals,
      bfgs_step minimize_scalar f df x search_direction armijo_param fuel
                Armijo = Some (alpha, evals) /\
      alpha = two_pow_neg k /\
      (line_search f x search_direction alpha <> NaN ->
       (f x + armijo_param * alpha * dot (df x) search_direction)%X <> NaN ->
       sufficient_decrease f df x search_direction armijo_param alpha = true).
Proof.
  intros Hrange Hk Hfail fuel Hfuel.
  exists (two_pow_neg k), (0 + 2 * S k). split; [|split; [reflexivity|]].
  - unfold bfgs_step. rewrite <- alpha_at_start.
    rewrite <- (alpha_at_small k Hrange).
    apply (armijo_while_stops k fuel 0 0 Hfuel); cbn [Nat.add].
    + intros i Hi. rewrite alpha_at_small by lia. now apply Hfail.
    + now rewrite alpha_at_small.
  - intros Hl Hr. unfold armijo_test in Hk.
    rewrite (xgtb_negb_xleb _ _ Hl Hr) in Hk. unfold sufficient_decrease.
    now destruct (xleb _ _).
Qed.

End StepFacts.

(** From [x = (1, 1)] along [d = (-2, -2)] with parameter [0.5] on the
    notebook's objective, the loop test is true at the full step and false
    at the half step. *)
Lemma armijo_stops_at_first_false_test_witness :
  exists alpha evals,
    bfgs_step minimize_scalar_stub Sheet.f Sheet.df [xone; xone]
              [(- xtwo)%X; (- xtwo)%X] xhalf 2 Armijo = Some (alpha, evals) /\
    alpha = two_pow_neg 1 /\
    (line_search Sheet.f [xone; xone] [(- xtwo)%X; (- xtwo)%X] alpha <> NaN ->
     (Sheet.f [xone; xone]
      + xhalf * alpha * dot (Sheet.df [xone; xone]) [(- xtwo)%X; (- xtwo)%X])%X
     <> NaN ->
     sufficient_decrease Sheet.f Sheet.df [xone; xone] [(- xtwo)%X; (- xtwo)%X]
                         xhalf alpha = true).
Proof.
  apply (armijo_stops_at_first_false_test minimize_scalar_stub Sheet.f Sheet.df
           [xone; xone] [(- xtwo)%X; (- xtwo)%X] xhalf 1).
  - lia.
  - vm_compute. reflexivity.
  - intros [|j] Hj; [vm_compute; reflexivity | lia].
  - lia.
Defined.

(** C6, as worded, fails where a probe of the objective is [NaN]: on
    [f(x) = x[0] + 0 * np.log(x[0])] from [x = (1)] along [d = (-1)] with
    parameter [0.5], the full step lands on [f = NaN]; the inequality [<=]
    fails at [alpha = 1] and holds at [alpha = 1/2], so [2^-1] is the first
    step with sufficient decrease, yet the loop test [>] is false at
    [alpha = 1] and [bfgs_step] returns 1. *)
Lemma armijo_nan_probe_ends_halving :
  sufficient_decrease Barrier.f Barrier.df [xone] [(- xone)%X] xhalf
                      (two_pow_neg 0) = false /\
  sufficient_decrease Barrier.f Barrier.df [xone] [(- xone)%X] xhalf
                      (two_pow_neg 1) = true /\
  (forall fuel,
     exists evals,
       bfgs_step minimize_scalar_stub Barrier.f Barrier.df [xone] [(- xone)%X]
                 xhalf (S fuel) Armijo = Some (xone, evals)) /\
  ~ armijo_as_specified minimize_scalar_stub Barrier.f Barrier.df [xone]
      [(- xone)%X] xhalf.
Proof.
  assert (T : armijo_test Barrier.f Barrier.df [xone] [(- xone)%X] xhalf xone
              = false) by (vm_compute; reflexivity).
  assert (R : forall fuel,
             bfgs_step minimize_scalar_stub Barrier.f Barrier.df [xone]
               [(- xone)%X] xhalf (S fuel) Armijo = Some (xone, 2)).
  { intro fuel. unfold bfgs_step. cbn [armijo_while]. rewrite T. reflexivity. }
  split; [vm_compute; reflexivity|].
  split; [vm_compute; reflexivity|].
  split; [intro fuel; exists 2; apply R|].
  intro A. destruct (A 1) as (fuel & evals & E).
  - vm_compute. reflexivity.
  - intros [|j] Hj; [vm_compute; reflexivity | lia].
  - destruct fuel as [|fuel]; [discriminate|].
    rewrite R in E.
    apply (f_equal (fun r => match r with
                             | Some (a, _) => xeqb a xone
                             | None => false
                             end)) in E.
    vm_compute in E. discriminate.
Qed.

(** ** The run *)

Section RunFacts.

Variable minimize_scalar : (xnum -> xnum) -> OptimizeResult.
Variable la_norm_lt : vec -> xnum -> option bool.
Variable fuel : nat.
Variable f : vec -> xnum.
Variable df : vec -> vec.
Variable x0 : vec.
Variable m : method.
Variable armijo_param : xnum.
Variable tol : xnum.
Variable save_history : bool.

Local Abbreviation body := (bfgs_body minimize_scalar fuel f df x0 m armijo_param).
Local Abbreviation bodies := (run_bodies minimize_scalar fuel f df x0 m armijo_param).
Local Abbreviation loop max_iter :=
  (bfgs_for minimize_scalar la_norm_lt fuel f df x0 m armijo_param max_iter tol
            save_history).
Local Abbreviation run max_iter :=
  (bfgs minimize_scalar la_norm_lt fuel f df x0 m armijo_param max_iter tol
        save_history).

(** What [bfgs] returns, from what the loop leaves behind. *)
Lemma bfgs_of_loop (max_iter : nat) (xr : vec) (c : bool) (k : nat)
  (h : list vec) :
  loop max_iter (seq 0 max_iter) x0 (eye (n x0)) [] = Some (xr, c, k, h) ->
  run max_iter
  = Some (mkBFGSOutput xr (f xr) c k (if save_history then Some h else None)).
Proof.
  intro E. unfold bfgs, bfgs_states. rewrite E. unfold out_states.
  destruct save_history; reflexivity.
Qed.

(** [bfgs] returns nothing when the loop does not end. *)
Lemma bfgs_of_no_loop (max_iter : nat) :
  loop max_iter (seq 0 max_iter) x0 (eye (n x0)) [] = None ->
  run max_iter = None.
Proof. intro E. unfold bfgs, bfgs_states. rewrite E. reflexivity. Qed.

(** C9: with [max_iter = 0] the loop body is never entered: [bfgs] returns at
    once with [converged = False], [n_iter = 0] and the initial point, for
    every objective and every initial point. *)
Theorem bfgs_max_iter_zero :
  exists out,
    run 0 = Some out /\
    converged out = false /\ iter out = 0 /\ x out = x0 /\
    fx out = f x0 /\
    history out = (if save_history then Some [] else None).
Proof.
  eexists. split.
  - apply bfgs_of_loop. reflexivity.
  - repeat split.
Qed.

(** The loop from index [s] over [len] indices, when it returns: it stops at
    the iterate reached after [j] passes, every earlier iterate failed the
    convergence test, and [tail] lists the iterates it recorded. *)
Lemma loop_result (max_iter len : nat) :
  forall s x H hist xr c k h,
    loop max_iter (seq s len) x H hist = Some (xr, c, k, h) ->
    exists j Hr tail,
      bodies s j x H = Some (xr, Hr) /\
      (forall i xi Hi, i < j -> bodies s i x H = Some (xi, Hi) ->
                       la_norm_lt (df xi) tol = Some false) /\
      h = (if save_history then hist ++ tail else hist) /\
      length tail = (if c then S j else len) /\
      (0 < len -> hd_error tail = Some x) /\
      (if c then j < len /\ k = s + j /\ la_norm_lt (df xr) tol = Some true
       else j = len /\ k = max_iter).
Proof.
  induction len as [|len IH]; intros s x H hist xr c k h E; simpl in E.
  - injection E as <- <- <- <-. exists 0, H, []. simpl.
    repeat split; try lia.
    destruct save_history; [now rewrite app_nil_r | reflexivity].
  - destruct (la_norm_lt (df x) tol) as [[|]|] eqn:T; [| |discriminate].
    + injection E as <- <- <- <-. exists 0, H, [x]. simpl.
      repeat split; try lia; try assumption.
    + destruct (body s x H) as [[x' H']|] eqn:B; [|discriminate].
      apply IH in E as (j & Hr & tail & Ej & Ht & Eh & El & _ & Ec).
      exists (S j), Hr, (x :: tail). simpl. rewrite B.
      split; [assumption|]. split.
      { intros [|i] xi Hi Hlt Ei; simpl in Ei.
        - injection Ei as <- <-. exact T.
        - rewrite B in Ei. apply (Ht i xi Hi); [lia | exact Ei]. }
      split.
      { rewrite Eh. destruct save_history; [|reflexivity].
        now rewrite <- app_assoc. }
      split; [rewrite El; now destruct c|].
      split; [reflexivity|].
      destruct c; [destruct Ec as (? & ? & ?); repeat split; try lia; assumption
                  | destruct Ec; split; [lia|assumption]].
Qed.

(** The loop stops at the first iterate that passes the test. *)
Lemma loop_converges (max_iter : nat) :
  forall j len s x H hist xj Hj,
    j < len ->
    bodies s j x H = Some (xj, Hj) ->
    (forall i xi Hi, i < j -> bodies s i x H = Some (xi, Hi) ->
                     la_norm_lt (df xi) tol = Some false) ->
    la_norm_lt (df xj) tol = Some true ->
    exists h, loop max_iter (seq s len) x H hist = Some (xj, true, s + j, h).
Proof.
  induction j as [|j IH]; intros [|len] s x H hist xj Hj Hlt Ej Hf Ht;
    try lia; simpl in Ej |- *.
  - injection Ej as <- <-. rewrite Ht, Nat.add_0_r. eauto.
  - rewrite (Hf 0 x H); [|lia|reflexivity].
    destruct (body s x H) as [[x' H']|] eqn:B; [|discriminate].
    replace (s + S j) with (S s + j) by lia.
    apply IH with (Hj := Hj); try assumption; try lia.
    intros i xi Hi Hi_lt Ei. apply (Hf (S i) xi Hi); [lia|].
    simpl. now rewrite B.
Qed.

(** The loop ends without a result at the first iterate where [la.norm]
    raises. *)
Lemma loop_raises (max_iter : nat) :
  forall j len s x H hist xj Hj,
    j < len ->
    bodies s j x H = Some (xj, Hj) ->
    (forall i xi Hi, i < j -> bodies s i x H = Some (xi, Hi) ->
                     la_norm_lt (df xi) tol = Some false) ->
    la_norm_lt (df xj) tol = None ->
    loop max_iter (seq s len) x H hist = None.
Proof.
  induction j as [|j IH]; intros [|len] s x H hist xj Hj Hlt Ej Hf Ht;
    try lia; simpl in Ej |- *.
  - injection Ej as <- <-. rewrite Ht. reflexivity.
  - rewrite (Hf 0 x H); [|lia|reflexivity].
    destruct (body s x H) as [[x' H']|] eqn:B; [|discriminate].
    apply IH with (xj := xj) (Hj := Hj); try assumption; try lia.
    intros i xi Hi Hi_lt Ei. apply (Hf (S i) xi Hi); [lia|].
    simpl. now rewrite B.
Qed.

(** The loop runs to the cap when no visited iterate passes the test. *)
Lemma loop_cap (max_iter : nat) :
  forall len s x H hist xl Hl,
    bodies s len x H = Some (xl, Hl) ->
    (forall i xi Hi, i < len -> bodies s i x H = Some (xi, Hi) ->
                     la_norm_lt (df xi) tol = Some false) ->
    exists h, loop max_iter (seq s len) x H hist = Some (xl, false, max_iter, h).
Proof.
  induction len as [|len IH]; intros s x H hist xl Hl El Hf; simpl in El |- *.
  - injection El as <- <-. eauto.
  - rewrite (Hf 0 x H); [|lia|reflexivity].
    destruct (body s x H) as [[x' H']|] eqn:B; [|discriminate].
    apply IH with (Hl := Hl); [assumption|].
    intros i xi Hi Hi_lt Ei. apply (Hf (S i) xi Hi); [lia|].
    simpl. now rewrite B.
Qed.

Local Abbreviation iterate_ :=
  (iterate minimize_scalar fuel f df x0 m armijo_param).

(** C7 (amended): [bfgs] reports how the loop ended, as long as [la.norm]
    does not raise.  If the test [la.norm(df(x)) < tol] is evaluated and
    false at every iterate before the one of index [i < max_iter] and true
    there, the result has [converged = True], [n_iter = i] and that very
    iterate as [x] (no step is taken from it).  If the test is evaluated and
    false at every iterate visited in the [max_iter] iterations, the result
    has [converged = False] and [n_iter = max_iter]. *)
Theorem bfgs_reports_termination (max_iter : nat) :
  (forall i xi Hi,
      i < max_iter ->
      iterate_ i = Some (xi, Hi) ->
      la_norm_lt (df xi) tol = Some true ->
      (forall j xj Hj, j < i -> iterate_ j = Some (xj, Hj) ->
                       la_norm_lt (df xj) tol = Some false) ->
      exists out,
        bfgs minimize_scalar la_norm_lt fuel f df x0 m armijo_param max_iter
             tol save_history = Some out /\
        converged out = true /\ iter out = i /\ x out = xi /\ fx out = f xi)
  /\
  (forall xm Hm,
      iterate_ max_iter = Some (xm, Hm) ->
      (forall j xj Hj, j < max_iter -> iterate_ j = Some (xj, Hj) ->
                       la_norm_lt (df xj) tol = Some false) ->
      exists out,
        bfgs minimize_scalar la_norm_lt fuel f df x0 m armijo_param max_iter
             tol save_history = Some out /\
        converged out = false /\ iter out = max_iter /\ x out = xm).
Proof.
  split.
  - intros i xi Hi Hlt Ei Ht Hf.
    destruct (loop_converges max_iter i max_iter 0 x0 (eye (n x0)) [] xi Hi
                Hlt Ei Hf Ht) as [h E].
    eexists. split; [apply bfgs_of_loop; exact E|]. repeat split.
  - intros xm Hm Em Hf.
    destruct (loop_cap max_iter max_iter 0 x0 (eye (n x0)) [] xm Hm Em Hf)
      as [h E].
    eexists. split; [apply bfgs_of_loop; exact E|]. repeat split.
Qed.

(** C5 (amended): in a run with [save_history = True] the returned history
    has [n_iter + 1] entries when the run converged and [max_iter] entries
    when the cap was reached without convergence; when [max_iter >= 1] its
    first entry is the initial point. *)
Theorem history_length_and_head (max_iter : nat) (out : BFGSOutput) :
  save_history = true ->
  run max_iter = Some out ->
  exists h,
    history out = Some h /\
    (converged out = true -> length h = iter out + 1) /\
    (converged out = false -> length h = max_iter /\ iter out = max_iter) /\
    (0 < max_iter -> nth_error h 0 = Some x0).
Proof.
  intros Hs E.
  destruct (loop max_iter (seq 0 max_iter) x0 (eye (n x0)) [])
    as [[[[xr c] k] h]|] eqn:L.
  - rewrite (bfgs_of_loop _ _ _ _ _ L) in E. injection E as <-. simpl.
    apply loop_result in L as (j & Hr & tail & _ & _ & Eh & El & Ehd & Ec).
    rewrite Hs in *. simpl in Eh. subst h. exists tail.
    split; [reflexivity|].
    split; [intros ->; destruct Ec as (_ & -> & _); rewrite El; simpl; lia|].
    split; [intros ->; destruct Ec as (_ & ->); rewrite El; split; reflexivity|].
    intro Hpos. apply Ehd in Hpos. destruct tail; [discriminate|exact Hpos].
  - unfold bfgs, bfgs_states in E. rewrite L in E. discriminate.
Qed.


(** C4 (amended): the result object is made once, after the loop, by the
    constructor, and has no history then.  With [save_history = False] it is
    returned as constructed.  With [save_history = True] one call of
    [add_history] afterwards sets the history and leaves the other
    attributes as they were, and the object is returned in that state. *)
Theorem result_object_lifecycle (max_iter : nat) (states : list BFGSOutput) :
  bfgs_states minimize_scalar la_norm_lt fuel f df x0 m armijo_param max_iter
              tol save_history = Some states ->
  exists out,
    hd_error states = Some out /\
    out = BFGSOutput_init (x out) (f (x out)) (converged out) (iter out) /\
    (save_history = false -> states = [out] /\ run max_iter = Some out) /\
    (save_history = true ->
     exists h,
       states = [out; add_history out h] /\
       run max_iter = Some (add_history out h) /\
       history (add_history out h) = Some h /\
       x (add_history out h) = x out /\
       fx (add_history out h) = fx out /\
       converged (add_history out h) = converged out /\
       iter (add_history out h) = iter out).
Proof.
  intro E. unfold bfgs. rewrite E. unfold bfgs_states in E.
  destruct (loop max_iter _ _ _ _) as [[[[xr c] k] h]|]; [|discriminate].
  injection E as <-. unfold out_states.
  exists (BFGSOutput_init xr (f xr) c k).
  destruct save_history; simpl; repeat split; try discriminate.
  intros _. exists h. repeat split.
Qed.

End RunFacts.

(** ** A secant pair with [dot(p, q) == 0] *)

(** [la.norm] evaluated without rounding raises on an array that holds an
    [inf] or a [NaN]. *)
Lemma exact_norm_lt_raises (v : vec) (tol : xnum) :
  Exists nonfinite v -> exact_norm_lt v tol = None.
Proof.
  intro E. unfold exact_norm_lt.
  destruct (forallb is_finite v) eqn:F; [|reflexivity].
  rewrite forallb_forall in F. apply Exists_exists in E as (a & Ha & Na).
  unfold nonfinite in Na. rewrite (F a Ha) in Na. discriminate.
Qed.

Lemma forallb_finite_false (v : vec) :
  forallb is_finite v = false -> Exists nonfinite v.
Proof.
  induction v as [|a v IH]; simpl; [discriminate|].
  destruct (is_finite a) eqn:F; simpl.
  - intro E. right. now apply IH.
  - intros _. left. exact F.
Qed.

Section DegeneratePair.

Variable minimize_scalar : (xnum -> xnum) -> OptimizeResult.
Variable la_norm_lt : vec -> xnum -> option bool.
Variable fuel : nat.
Variable f : vec -> xnum.
Variable df : vec -> vec.
Variable x0 : vec.
Variable m : method.
Variable armijo_param : xnum.
Variable tol : xnum.
Variable save_history : bool.

(** autograd's gradient has the shape of its argument. *)
Hypothesis df_shape : forall v, length v = n x0 -> length (df v) = n x0.

Local Abbreviation body := (bfgs_body minimize_scalar fuel f df x0 m armijo_param).
Local Abbreviation bodies := (run_bodies minimize_scalar fuel f df x0 m armijo_param).
Local Abbreviation iterate_ :=
  (iterate minimize_scalar fuel f df x0 m armijo_param).
Local Abbreviation loop max_iter :=
  (bfgs_for minimize_scalar la_norm_lt fuel f df x0 m armijo_param max_iter tol
            save_history).
Local Abbreviation run max_iter :=
  (bfgs minimize_scalar la_norm_lt fuel f df x0 m armijo_param max_iter tol
        save_history).
Local Abbreviation dim := (n x0).

(** The body, with its pieces named. *)
Lemma body_inv (k : nat) (x : vec) (H_inv : matrix) (x' : vec)
  (H_inv' : matrix) :
  body k x H_inv = Some (x', H_inv') ->
  exists alpha,
    let d := mat_vec (mat_neg H_inv) (df x) in
    let p := vec_sub x' x in
    let q := vec_sub (df x') (df x) in
    x' = vec_add x (vec_scale alpha d) /\
    H_inv' = conjugate dim (dot (vec_scale (xone / dot p q)%X p) q)
               (if k =? 0 then mat_scale H_inv (dot p q / dot q q)%X
                else H_inv).
Proof.
  unfold bfgs_body. intro B.
  destruct (bfgs_step _ _ _ _ _ _ _ _) as [[a e]|]; [|discriminate].
  cbv zeta in B. injection B as Ex EH. exists a. cbv zeta.
  split; [now symmetry|]. rewrite <- Ex. symmetry. exact EH.
Qed.

Lemma bodies_split (a : nat) :
  forall b s x H_inv,
    bodies s (a + b) x H_inv
    = match bodies s a x H_inv with
      | Some (x1, H1) => bodies (s + a) b x1 H1
      | None => None
      end.
Proof.
  induction a as [|a IH]; intros b s x H_inv; simpl.
  - now rewrite Nat.add_0_r.
  - destruct (body s x H_inv) as [[x1 H1]|]; [|reflexivity].
    rewrite IH. now replace (S s + a) with (s + S a) by lia.
Qed.

(** Shapes are kept by the body. *)
Lemma body_shape (k : nat) (x : vec) (H_inv : matrix) (x' : vec)
  (H_inv' : matrix) :
  length x = dim -> square dim H_inv ->
  body k x H_inv = Some (x', H_inv') ->
  length x' = dim /\ square dim H_inv'.
Proof.
  intros Hx HH B. apply body_inv in B as (alpha & -> & ->). cbv zeta.
  split; [|apply conjugate_square].
  unfold vec_scale, mat_neg.
  rewrite length_vec_add, length_map, length_mat_vec, length_map.
  destruct HH as [-> _]. lia.
Qed.

Lemma bodies_shape (k : nat) :
  forall s x H_inv x' H_inv',
    length x = dim -> square dim H_inv ->
    bodies s k x H_inv = Some (x', H_inv') ->
    length x' = dim /\ square dim H_inv'.
Proof.
  induction k as [|k IH]; intros s x H_inv x' H_inv' Hx HH E; simpl in E.
  - injection E as <- <-. now split.
  - destruct (body s x H_inv) as [[x1 H1]|] eqn:B; [|discriminate].
    destruct (body_shape _ _ _ _ _ Hx HH B) as [Hx1 HH1].
    exact (IH _ _ _ _ _ Hx1 HH1 E).
Qed.

(** The number [rho * p @ q.T] is not finite as soon as the first entry of
    [rho * p] is not. *)
Lemma scalar_nonfinite (rho : xnum) (p q : vec) :
  length p = dim -> length q = dim -> 0 < dim ->
  (forall a, In a p -> nonfinite (rho * a)%X) ->
  nonfinite (dot (vec_scale rho p) q).
Proof.
  intros Hp Hq Hpos Hrho.
  destruct p as [|a p]; [simpl in Hp; lia|].
  destruct q as [|b q]; [simpl in Hq; lia|].
  unfold vec_scale. cbn [map]. apply dot_nonfinite_l, Hrho. now left.
Qed.

(** A pass whose secant pair has [dot(p, q) == 0] leaves a matrix whose
    entries are all [inf] or [NaN]. *)
Lemma body_degenerate (k : nat) (x : vec) (H_inv : matrix) (x' : vec)
  (H_inv' : matrix) :
  length x = dim -> square dim H_inv ->
  body k x H_inv = Some (x', H_inv') ->
  dot (vec_sub x' x) (vec_sub (df x') (df x)) = xzero ->
  poisoned dim H_inv'.
Proof.
  intros Hx HH B Z.
  destruct (body_shape _ _ _ _ _ Hx HH B) as [Hx' _].
  apply body_inv in B as (alpha & _ & ->). cbv zeta.
  apply conjugate_poisoned.
  - intro Hpos. rewrite Z at 1. apply scalar_nonfinite; try assumption.
    + rewrite length_vec_sub. lia.
    + rewrite length_vec_sub, (df_shape x' Hx'), (df_shape x Hx). lia.
    + intros a _. now apply xmul_nonfinite_l.
  - destruct (k =? 0); [apply mat_scale_square|]; assumption.
Qed.

(** From a matrix whose entries are all [inf] or [NaN], a pass gives an
    iterate and a matrix of the same kind. *)
Lemma body_poisoned (k : nat) (x : vec) (H_inv : matrix) (x' : vec)
  (H_inv' : matrix) :
  length x = dim -> poisoned dim H_inv ->
  body k x H_inv = Some (x', H_inv') ->
  Forall nonfinite x' /\ poisoned dim H_inv'.
Proof.
  intros Hx [HH Hn] B.
  destruct (body_shape _ _ _ _ _ Hx HH B) as [Hx' _].
  apply body_inv in B as (alpha & E & ->). cbv zeta in *.
  assert (Nx : Forall nonfinite x').
  { rewrite E. apply vec_add_nonfinite_r, vec_scale_nonfinite.
    unfold mat_vec, mat_neg. apply Forall_map, Forall_map.
    destruct HH as [Hl Hr]. rewrite Forall_forall in *. intros r Hin.
    specialize (Hr r Hin). specialize (Hn r Hin).
    assert (Hg := df_shape x Hx).
    assert (Hpos : 0 < length H_inv)
      by (destruct H_inv; [contradiction | simpl; lia]).
    destruct r as [|a r]; destruct (df x) as [|g gs]; simpl in *; try lia.
    apply xadd_nonfinite_l, xmul_nonfinite_l, xopp_nonfinite.
    now inversion Hn. }
  split; [exact Nx|].
  apply conjugate_poisoned.
  - intro Hpos. apply scalar_nonfinite; try assumption.
    + rewrite length_vec_sub. lia.
    + rewrite length_vec_sub, (df_shape x' Hx'), (df_shape x Hx). lia.
    + intros a Ha. apply xmul_nonfinite_r.
      assert (Np := vec_sub_nonfinite_l x' x Nx).
      rewrite Forall_forall in Np. now apply Np.
  - destruct (k =? 0); [apply mat_scale_square|]; assumption.
Qed.

Lemma bodies_poisoned (k : nat) :
  forall s x H_inv x' H_inv',
    length x = dim -> poisoned dim H_inv ->
    bodies s k x H_inv = Some (x', H_inv') ->
    poisoned dim H_inv' /\ (0 < k -> Forall nonfinite x').
Proof.
  induction k as [|k IH]; intros s x H_inv x' H_inv' Hx HH E; simpl in E.
  - injection E as <- <-. split; [assumption | lia].
  - destruct (body s x H_inv) as [[x1 H1]|] eqn:B; [|discriminate].
    destruct (body_shape _ _ _ _ _ Hx (proj1 HH) B) as [Hx1 _].
    destruct (body_poisoned _ _ _ _ _ Hx HH B) as [N1 P1].
    destruct (IH _ _ _ _ _ Hx1 P1 E) as [P' N'].
    split; [exact P'|]. intros _.
    destruct k as [|k]; [|apply N'; lia].
    simpl in E. injection E as <- <-. exact N1.
Qed.

(** C8 (amended): when the iteration of index [i] produces a secant pair
    with [dot(p, q) == 0], nothing is raised at that point and the code does
    not detect it: [rho] is not finite, every entry of the new [H_inv] and of
    every later [H_inv] is [inf] or [NaN], and so is every entry of every
    iterate after the next one.  A result that [bfgs] returns with
    [n_iter > i + 1] has such an [x].  But [la.norm] raises on an array that
    holds [inf] or [NaN]: when the loop comes to the convergence test at such
    an iterate and the gradient there has an [inf] or [NaN] entry, the test
    raises and [bfgs] returns no result. *)
Theorem degenerate_pair_poisons_run (i : nat) (xi : vec) (Hi : matrix)
  (x' : vec) (H_inv' : matrix) :
  (forall v t, Exists nonfinite v -> la_norm_lt v t = None) ->
  iterate minimize_scalar fuel f df x0 m armijo_param i = Some (xi, Hi) ->
  bfgs_body minimize_scalar fuel f df x0 m armijo_param i xi Hi
  = Some (x', H_inv') ->
  dot (vec_sub x' xi) (vec_sub (df x') (df xi)) = xzero ->
  nonfinite (xone / dot (vec_sub x' xi) (vec_sub (df x') (df xi)))%X /\
  poisoned dim H_inv' /\
  (forall k xk Hk,
     i < k -> iterate_ k = Some (xk, Hk) ->
     poisoned dim Hk /\ (S i < k -> Forall nonfinite xk)) /\
  (forall max_iter out,
     run max_iter = Some out ->
     S i < iter out -> Forall nonfinite (x out)) /\
  (forall max_iter k xk Hk,
     S i < k -> k < max_iter ->
     iterate_ k = Some (xk, Hk) ->
     (forall j xj Hj, j < k -> iterate_ j = Some (xj, Hj) ->
                      la_norm_lt (df xj) tol = Some false) ->
     Exists nonfinite (df xk) ->
     Forall nonfinite xk /\
     la_norm_lt (df xk) tol = None /\
     run max_iter = None).
Proof.
  intros Hraise Ei B Z.
  destruct (bodies_shape i 0 x0 (eye dim) xi Hi eq_refl (eye_square dim) Ei)
    as [Hxi HHi].
  destruct (body_shape _ _ _ _ _ Hxi HHi B) as [Hx' _].
  assert (P : poisoned dim H_inv') by exact (body_degenerate _ _ _ _ _ Hxi HHi B Z).
  assert (E1 : iterate_ (S i) = Some (x', H_inv')).
  { unfold iterate in *. replace (S i) with (i + 1) by lia.
    rewrite bodies_split, Ei. simpl. now rewrite B. }
  assert (Later : forall k xk Hk,
            i < k -> iterate_ k = Some (xk, Hk) ->
            poisoned dim Hk /\ (S i < k -> Forall nonfinite xk)).
  { intros k xk Hk Hlt Ek. unfold iterate in *.
    replace k with (S i + (k - S i)) in Ek by lia.
    rewrite bodies_split, E1 in Ek.
    destruct (bodies_poisoned _ _ _ _ _ _ Hx' P Ek) as [Pk Nk].
    split; [exact Pk | intro; apply Nk; lia]. }
  split; [rewrite Z; reflexivity|]. split; [exact P|]. split; [exact Later|].
  split.
  - intros max_iter out E Hk.
    destruct (loop max_iter (seq 0 max_iter) x0 (eye dim) [])
      as [[[[xr c] k] h]|] eqn:L.
    + rewrite (bfgs_of_loop _ _ _ _ _ _ _ _ _ _ _ _ _ _ _ L) in E.
      injection E as <-. simpl in *.
      apply loop_result in L as (j & Hr & tail & Ej & _ & _ & _ & _ & Ec).
      assert (k = j) as ->.
      { destruct c; [destruct Ec as (_ & -> & _); reflexivity
                    | destruct Ec as [-> ->]; reflexivity]. }
      destruct (Later j xr Hr) as [_ Nj]; [lia | exact Ej |].
      apply Nj. exact Hk.
    + rewrite (bfgs_of_no_loop _ _ _ _ _ _ _ _ _ _ _ L) in E. discriminate.
  - intros max_iter k xk Hk Hik Hlt Ek Hf Hg.
    destruct (Later k xk Hk) as [_ Nk]; [lia | exact Ek |].
    split; [apply Nk; exact Hik|].
    split; [apply Hraise; exact Hg|].
    apply bfgs_of_no_loop.
    apply (loop_raises minimize_scalar la_norm_lt fuel f df x0 m armijo_param
             tol save_history max_iter k max_iter 0 x0 (eye dim) [] xk Hk Hlt
             Ek Hf).
    apply Hraise. exact Hg.
Qed.

End DegeneratePair.

(** On [f(x) = x[0]**2] from [(1)] with the full step, the first update
    leaves [H_inv = [[0]]], so the step of iteration 1 is the zero step:
    [p = q = 0].  The iterate of index 3 is [NaN], and so is its gradient. *)
Lemma degenerate_pair_poisons_run_witness :
  exists x1 H1 x2 H2,
    iterate minimize_scalar_stub 0 Parabola.f Parabola.df [xone] Full xhalf 1
    = Some (x1, H1) /\
    bfgs_body minimize_scalar_stub 0 Parabola.f Parabola.df [xone] Full xhalf
              1 x1 H1 = Some (x2, H2) /\
    dot (vec_sub x2 x1) (vec_sub (Parabola.df x2) (Parabola.df x1)) = xzero /\
    poisoned 1 H2 /\
    bfgs minimize_scalar_stub exact_norm_lt 0 Parabola.f Parabola.df [xone]
         Full xhalf 20 tol_default false = None.
Proof.
  assert (B : exists x1 H1 x2 H2 x3 H3,
             iterate minimize_scalar_stub 0 Parabola.f Parabola.df [xone] Full
                     xhalf 1 = Some (x1, H1) /\
             bfgs_body minimize_scalar_stub 0 Parabola.f Parabola.df [xone]
                       Full xhalf 1 x1 H1 = Some (x2, H2) /\
             xeqb (dot (vec_sub x2 x1)
                       (vec_sub (Parabola.df x2) (Parabola.df x1)))
                  xzero = true /\
             iterate minimize_scalar_stub 0 Parabola.f Parabola.df [xone] Full
                     xhalf 3 = Some (x3, H3) /\
             forallb is_finite (Parabola.df x3) = false).
  { eexists _, _, _, _, _, _. split; [vm_compute; reflexivity|].
    split; [vm_compute; reflexivity|]. split; [vm_compute; reflexivity|].
    split; vm_compute; reflexivity. }
  destruct B as (x1 & H1 & x2 & H2 & x3 & H3 & E1 & B & Z & E3 & G3).
  apply xeqb_eq in Z. apply forallb_finite_false in G3.
  destruct (degenerate_pair_poisons_run minimize_scalar_stub exact_norm_lt 0
              Parabola.f Parabola.df [xone] Full xhalf tol_default false)
    with (i := 1) (xi := x1) (Hi := H1) (x' := x2) (H_inv' := H2)
    as (_ & P & _ & _ & R).
  - intros [|a [|b v]] Hv; try discriminate Hv. reflexivity.
  - intros v t. apply exact_norm_lt_raises.
  - exact E1.
  - exact B.
  - exact Z.
  - exists x1, H1, x2, H2. split; [exact E1|]. split; [exact B|].
    split; [exact Z|]. split; [exact P|].
    destruct (R 20 3 x3 H3) as (_ & _ & N); try lia; try assumption.
    intros [|[|[|j]]] xj Hj Hlt Ej; try lia;
      vm_compute in Ej; injection Ej as <- <-; vm_compute; reflexivity.
Defined.

(** C8, as worded, fails: in the run on [f(x) = x[0]**2] from [(1)] with the
    full step and the default tolerance and cap, iteration 1 is entered (the
    tests at the iterates 0 and 1 are false) and produces a secant pair with
    [dot(p, q) == 0]; the test at iterate 2 is false, and the test at iterate
    3, whose gradient is [NaN], raises: [bfgs] returns no result. *)
Lemma degenerate_pair_run_raises :
  exists x1 H1 x2 H2 x3 H3,
    iterate minimize_scalar_stub 0 Parabola.f Parabola.df [xone] Full xhalf 1
    = Some (x1, H1) /\
    exact_norm_lt (Parabola.df [xone]) tol_default = Some false /\
    exact_norm_lt (Parabola.df x1) tol_default = Some false /\
    bfgs_body minimize_scalar_stub 0 Parabola.f Parabola.df [xone] Full xhalf
              1 x1 H1 = Some (x2, H2) /\
    dot (vec_sub x2 x1) (vec_sub (Parabola.df x2) (Parabola.df x1)) = xzero /\
    exact_norm_lt (Parabola.df x2) tol_default = Some false /\
    iterate minimize_scalar_stub 0 Parabola.f Parabola.df [xone] Full xhalf 3
    = Some (x3, H3) /\
    exact_norm_lt (Parabola.df x3) tol_default = None /\
    bfgs minimize_scalar_stub exact_norm_lt 0 Parabola.f Parabola.df [xone]
         Full xhalf 20 tol_default false = None.
Proof.
  eexists _, _, _, _, _, _.
  split; [vm_compute; reflexivity|].
  split; [vm_compute; reflexivity|].
  split; [vm_compute; reflexivity|].
  split; [vm_compute; reflexivity|].
  split; [apply xeqb_eq; vm_compute; reflexivity|].
  split; [vm_compute; reflexivity|].
  split; [vm_compute; reflexivity|].
  split; vm_compute; reflexivity.
Qed.



(** C1: in the first iteration of the run on the notebook's objective from
    [(1, 1)] with the full step, the secant pair is [p = (-2, -2)],
    [q = (-4, -4)], and the rescaled matrix is [0.5 * I].  The code's update
    gives [0.5 * I]; the formula with the outer product gives
    [[0.25, -0.25], [-0.25, 0.25]]. *)
Theorem first_update_is_not_outer_product_formula :
  exists x' H_inv',
    iterate minimize_scalar_stub 0 Sheet.f Sheet.df [xone; xone] Full xhalf 1
    = Some (x', H_inv') /\
    let p := vec_sub x' [xone; xone] in
    let q := vec_sub (Sheet.df x') (Sheet.df [xone; xone]) in
    let rho := (xone / dot p q)%X in
    let H_scaled := mat_scale (eye 2) (dot p q / dot q q)%X in
    let quarter := (xhalf * xhalf)%X in
    vec_eqb p [(- xtwo)%X; (- xtwo)%X] = true /\
    vec_eqb q [(- (xtwo * xtwo))%X; (- (xtwo * xtwo))%X] = true /\
    mat_eqb H_scaled [[xhalf; xzero]; [xzero; xhalf]] = true /\
    mat_eqb H_inv' [[xhalf; xzero]; [xzero; xhalf]] = true /\
    mat_eqb (update_as_specified 2 rho p q H_scaled)
            [[quarter; (- quarter)%X]; [(- quarter)%X; quarter]] = true /\
    H_inv' <> update_as_specified 2 rho p q H_scaled.
Proof.
  eexists _, _. split; [vm_compute; reflexivity|]. cbv zeta.
  repeat (split; [vm_compute; reflexivity|]).
  intro E.
  match type of E with ?A = ?B =>
    assert (N : mat_eqb A B = false) by (vm_compute; reflexivity);
    rewrite <- E, mat_eqb_refl in N
  end.
  discriminate.
Qed.

Lemma result_object_lifecycle_witness :
  exists out h,
    bfgs_states minimize_scalar_stub exact_norm_lt 0 Sheet.f Sheet.df
                [xone; xone] Full xhalf 0 tol_default true
    = Some [out; add_history out h] /\
    history out = None /\
    bfgs minimize_scalar_stub exact_norm_lt 0 Sheet.f Sheet.df [xone; xone]
         Full xhalf 0 tol_default true = Some (add_history out h).
Proof.
  destruct (result_object_lifecycle minimize_scalar_stub exact_norm_lt 0
              Sheet.f Sheet.df [xone; xone] Full xhalf tol_default true 0 _
              eq_refl)
    as (out & _ & Hinit & _ & Htrue).
  destruct (Htrue eq_refl) as (h & Hs & Hr & _).
  exists out, h. split; [|split; [rewrite Hinit; reflexivity | exact Hr]].
  rewrite <- Hs. reflexivity.
Defined.

(** C4, as stated, fails in a run with [save_history = True]: the object made
    by the constructor has no history, and the state after [add_history]
    differs from it. *)
Lemma result_object_mutated_after_construction :
  exists states,
    bfgs_states minimize_scalar_stub exact_norm_lt 0 Sheet.f Sheet.df
                [xone; xone] Full xhalf 0 tol_default true = Some states /\
    ~ built_once_with_history states true.
Proof.
  eexists. split; [reflexivity|].
  simpl. intros [Hh _]. apply Hh; reflexivity.
Qed.

(** C3: on [f(x) = x[0]**2 + x[1]**2] from [(1, 1)] with the full step and
    [tol = 1e-5], [bfgs] returns [converged = True] after 2 iterations (fewer
    than 10) with final iterate exactly [(0, 0)], which is within the
    tolerance of the minimiser.  This holds for every cap of at least 3
    iterations, the default 20 among them. *)
Theorem quadratic_full_converges
  (minimize_scalar : (xnum -> xnum) -> OptimizeResult) (fuel : nat)
  (armijo_param : xnum) (max_iter : nat) (save_history : bool) :
  3 <= max_iter ->
  exists out,
    bfgs minimize_scalar exact_norm_lt fuel Sheet.f Sheet.df [xone; xone] Full
         armijo_param max_iter tol_default save_history = Some out /\
    converged out = true /\
    iter out = 2 /\ iter out < 10 /\
    x out = [xzero; xzero] /\
    norm_lt (vec_sub (x out) [xzero; xzero]) tol_default = true /\
    fx out = xzero.
Proof.
  destruct max_iter as [|[|[|k]]]; try lia. intros _.
  assert (E : exists xr h,
             bfgs_for minimize_scalar exact_norm_lt fuel Sheet.f Sheet.df
                      [xone; xone] Full armijo_param (S (S (S k))) tol_default
                      save_history (seq 0 (S (S (S k)))) [xone; xone]
                      (eye (n [xone; xone])) []
             = Some (xr, true, 2, h) /\
             vec_eqb xr [xzero; xzero] = true).
  { destruct save_history; eexists _, _; split; vm_compute; reflexivity. }
  destruct E as (xr & h & E & Ex). apply vec_eqb_eq in Ex. subst xr.
  eexists. split; [apply bfgs_of_loop; exact E|]. simpl.
  repeat split; lia.
Qed.

Lemma quadratic_full_converges_witness :
  exists out,
    bfgs minimize_scalar_stub exact_norm_lt 0 Sheet.f Sheet.df [xone; xone]
         Full xhalf 20 tol_default false = Some out /\
    converged out = true /\
    iter out = 2 /\ iter out < 10 /\
    x out = [xzero; xzero] /\
    norm_lt (vec_sub (x out) [xzero; xzero]) tol_default = true /\
    fx out = xzero.
Proof.
  apply (quadratic_full_converges minimize_scalar_stub 0 xhalf 20 false).
  lia.
Defined.

Lemma bfgs_reports_termination_witness :
  (exists out,
      bfgs minimize_scalar_stub exact_norm_lt 0 Sheet.f Sheet.df [xone; xone]
           Full xhalf 20 tol_default false = Some out /\
      converged out = true /\ iter out = 2 /\ x out = [xzero; xzero])
  /\
  (exists out,
      bfgs minimize_scalar_stub exact_norm_lt 0 Sheet.f Sheet.df [xone; xone]
           Full xhalf 1 tol_default false = Some out /\
      converged out = false /\ iter out = 1).
Proof.
  split.
  - assert (E : exists xi Hi,
               iterate minimize_scalar_stub 0 Sheet.f Sheet.df [xone; xone]
                       Full xhalf 2 = Some (xi, Hi) /\
               vec_eqb xi [xzero; xzero] = true).
    { eexists _, _. split; vm_compute; reflexivity. }
    destruct E as (xi & Hi & E & Ex). apply vec_eqb_eq in Ex. subst xi.
    destruct (bfgs_reports_termination minimize_scalar_stub exact_norm_lt 0
                Sheet.f Sheet.df [xone; xone] Full xhalf tol_default false 20)
      as [Ha _].
    destruct (Ha 2 [xzero; xzero] Hi) as (out & Eo & Hc & Hi' & Hx & _).
    + lia.
    + exact E.
    + vm_compute. reflexivity.
    + intros [|[|j]] xj Hj Hlt Ej; try lia;
        vm_compute in Ej; injection Ej as <- <-; vm_compute; reflexivity.
    + exists out. repeat split; assumption.
  - assert (E : exists xm Hm,
               iterate minimize_scalar_stub 0 Sheet.f Sheet.df [xone; xone]
                       Full xhalf 1 = Some (xm, Hm)).
    { eexists _, _. vm_compute. reflexivity. }
    destruct E as (xm & Hm & E).
    destruct (bfgs_reports_termination minimize_scalar_stub exact_norm_lt 0
                Sheet.f Sheet.df [xone; xone] Full xhalf tol_default false 1)
      as [_ Hb].
    destruct (Hb xm Hm E) as (out & Eo & Hc & Hi' & _).
    + intros [|j] xj Hj Hlt Ej; try lia.
      vm_compute in Ej. injection Ej as <- <-. vm_compute. reflexivity.
    + exists out. repeat split; assumption.
Defined.

(** C7, as worded, fails where [la.norm] raises: in the run on
    [f(x) = x[0]**2] from [(2)] with the full step and the default tolerance
    and cap, no iterate the loop visits has a gradient norm below the
    tolerance, yet no result with [converged = False] is returned: the
    gradient at the iterate of index 3 is [NaN] and the test raises there. *)
Lemma run_raises_before_cap :
  (forall j xj Hj,
     j < 20 ->
     iterate minimize_scalar_stub 0 Parabola.f Parabola.df [xtwo] Full xhalf j
     = Some (xj, Hj) ->
     norm_lt (Parabola.df xj) tol_default = false) /\
  (exists x3 H3,
     iterate minimize_scalar_stub 0 Parabola.f Parabola.df [xtwo] Full xhalf 3
     = Some (x3, H3) /\
     exact_norm_lt (Parabola.df x3) tol_default = None) /\
  bfgs minimize_scalar_stub exact_norm_lt 0 Parabola.f Parabola.df [xtwo] Full
       xhalf 20 tol_default false = None.
Proof.
  split.
  { intros j xj Hj Hlt Ej.
    do 20 (destruct j as [|j];
           [vm_compute in Ej; injection Ej as <- <-; vm_compute; reflexivity|]).
    lia. }
  split.
  { eexists _, _. split; vm_compute; reflexivity. }
  vm_compute. reflexivity.
Qed.

Lemma history_length_and_head_witness :
  exists out h,
    bfgs minimize_scalar_stub exact_norm_lt 0 Sheet.f Sheet.df [xone; xone]
         Full xhalf 20 tol_default true = Some out /\
    history out = Some h /\
    length h = 3 /\
    nth_error h 0 = Some [xone; xone].
Proof.
  assert (E : exists out,
             bfgs minimize_scalar_stub exact_norm_lt 0 Sheet.f Sheet.df
                  [xone; xone] Full xhalf 20 tol_default true = Some out /\
             converged out = true /\ iter out = 2).
  { eexists. split; [vm_compute; reflexivity|].
    split; vm_compute; reflexivity. }
  destruct E as (out & E & Ec & Ei).
  destruct (history_length_and_head minimize_scalar_stub exact_norm_lt 0
              Sheet.f Sheet.df [xone; xone] Full xhalf tol_default true 20 out
              eq_refl E)
    as (h & Hh & Hlen & _ & Hhd).
  exists out, h. repeat split; try assumption.
  - rewrite (Hlen Ec), Ei. reflexivity.
  - apply Hhd. lia.
Defined.

(** C5, as stated, fails when [max_iter = 0]: the history is empty and has
    no first entry. *)
Lemma history_head_absent_when_no_iteration :
  exists out,
    bfgs minimize_scalar_stub exact_norm_lt 0 Sheet.f Sheet.df [xone; xone]
         Full xhalf 0 tol_default true = Some out /\
    history out = Some [] /\
    ~ history_as_specified out [xone; xone] 0.
Proof.
  eexists. split; [reflexivity|]. split; [reflexivity|].
  intros (h & Hh & _ & _ & Hhd). simpl in Hh. injection Hh as <-.
  discriminate Hhd.
Qed.

(** * Further properties of the code *)

(** ** The Armijo loop of [bfgs_step] *)



Section ArmijoFacts.

Variable minimize_scalar : (xnum -> xnum) -> OptimizeResult.
Variable f : vec -> xnum.
Variable df : vec -> vec.
Variable x : vec.
Variable search_direction : vec.
Variable armijo_param : xnum.

Local Abbreviation test := (armijo_test f df x search_direction armijo_param).
Local Abbreviation while_ :=
  (armijo_while f df x search_direction armijo_param).

(** X1: With the method [Armijo], [bfgs_step] only ever returns 1 halved [k]
    times, for a [k] below the number of tests allowed: [2^-k] for
    [k <= 1074], and 0 beyond.  The returned step is finite and lies between
    0 and 1; the loop test is false at it and true at every earlier value of
    the halving sequence. *)
Theorem armijo_step_characterised (fuel : nat) (alpha : xnum) (evals : nat) :
  bfgs_step minimize_scalar f df x search_direction armijo_param fuel Armijo
  = Some (alpha, evals) ->
  exists k,
    k < fuel /\
    (k <= 1074 /\ alpha = two_pow_neg k \/ 1074 < k /\ alpha = xzero) /\
    xleb xzero alpha = true /\ xleb alpha xone = true /\
    armijo_test f df x search_direction armijo_param alpha = false /\
    (forall j, j < k ->
       armijo_test f df x search_direction armijo_param (alpha_at j) = true).
Proof.
  unfold bfgs_step. rewrite <- alpha_at_start. intro E.
  apply armijo_while_inv in E as (k & Hk & -> & Ef & Ht & _).
  cbn [Nat.add] in *. exists k.
  destruct (alpha_at_range k) as (_ & H0 & H1).
  repeat split; try assumption.
  destruct (Nat.le_gt_cases k 1074) as [L|L].
  - left. split; [exact L | now apply alpha_at_small].
  - right. split; [exact L | now apply alpha_at_large].
Qed.




End ArmijoFacts.

(** From [x = (1, 1)] along [d = (-2, -2)] with parameter [0.5] the loop
    returns [1/2]. *)
Lemma armijo_step_characterised_witness :
  exists k,
    k < 5 /\
    (k <= 1074 /\ two_pow_neg 1 = two_pow_neg k \/
     1074 < k /\ two_pow_neg 1 = xzero) /\
    xleb xzero (two_pow_neg 1) = true /\ xleb (two_pow_neg 1) xone = true /\
    armijo_test Sheet.f Sheet.df [xone; xone] [(- xtwo)%X; (- xtwo)%X] xhalf
                (two_pow_neg 1) = false /\
    (forall j, j < k ->
       armijo_test Sheet.f Sheet.df [xone; xone] [(- xtwo)%X; (- xtwo)%X]
                   xhalf (alpha_at j) = true).
Proof.
  apply (armijo_step_characterised minimize_scalar_stub Sheet.f Sheet.df
           [xone; xone] [(- xtwo)%X; (- xtwo)%X] xhalf 5 (two_pow_neg 1) 4).
  vm_compute. reflexivity.
Defined.


(** ** The result of a run *)

(** No norm is below a tolerance that is zero, negative or [NaN]. *)
Lemma norm_lt_nonpositive (v : vec) (tol : xnum) :
  tol = NaN \/ xleb tol xzero = true -> norm_lt v tol = false.
Proof.
  unfold norm_lt. intros [->|L]; [now destruct (dot v v)|].
  destruct (dot v v); try reflexivity.
  destruct tol as [t| | |]; try reflexivity; try discriminate L.
  simpl in L. apply Qcleb_not_gt in L. now rewrite L.
Qed.

Lemma exact_norm_lt_nonpositive (v : vec) (tol : xnum) :
  tol = NaN \/ xleb tol xzero = true -> exact_norm_lt v tol <> Some true.
Proof.
  intros Htol. unfold exact_norm_lt.
  destruct (forallb is_finite v); [|discriminate].
  rewrite (norm_lt_nonpositive v tol Htol). discriminate.
Qed.

Section RunExtras.

Variable minimize_scalar : (xnum -> xnum) -> OptimizeResult.
Variable la_norm_lt : vec -> xnum -> option bool.
Variable fuel : nat.
Variable f : vec -> xnum.
Variable df : vec -> vec.
Variable x0 : vec.
Variable m : method.
Variable armijo_param : xnum.
Variable tol : xnum.

Local Abbreviation body := (bfgs_body minimize_scalar fuel f df x0 m armijo_param).
Local Abbreviation bodies := (run_bodies minimize_scalar fuel f df x0 m armijo_param).
Local Abbreviation iterate_ :=
  (iterate minimize_scalar fuel f df x0 m armijo_param).
Local Abbreviation loop max_iter save_history :=
  (bfgs_for minimize_scalar la_norm_lt fuel f df x0 m armijo_param max_iter tol
            save_history).
Local Abbreviation run max_iter save_history :=
  (bfgs minimize_scalar la_norm_lt fuel f df x0 m armijo_param max_iter tol
        save_history).

(** What the loop leaves in a returned object. *)
Lemma run_inv (max_iter : nat) (save_history : bool) (out : BFGSOutput) :
  run max_iter save_history = Some out ->
  exists h,
    loop max_iter save_history (seq 0 max_iter) x0 (eye (n x0)) []
    = Some (x out, converged out, iter out, h) /\
    fx out = f (x out) /\
    history out = (if save_history then Some h else None).
Proof.
  intro E.
  destruct (loop max_iter save_history (seq 0 max_iter) x0 (eye (n x0)) [])
    as [[[[xr c] k] h]|] eqn:L.
  - rewrite (bfgs_of_loop _ _ _ _ _ _ _ _ _ _ _ _ _ _ _ L) in E.
    injection E as <-. exists h. simpl. repeat split.
  - unfold bfgs, bfgs_states in E. rewrite L in E. discriminate.
Qed.

(** X4: The flag [converged] can be trusted: when it is [True] the gradient norm
    at the returned [x] is below [tol] and fewer than [max_iter] iterations
    were used; when it is [False] exactly [max_iter] were used.  In both
    cases [n_iter <= max_iter]. *)
Theorem converged_flag_sound (max_iter : nat) (save_history : bool)
  (out : BFGSOutput) :
  run max_iter save_history = Some out ->
  iter out <= max_iter /\
  (converged out = true ->
   iter out < max_iter /\ la_norm_lt (df (x out)) tol = Some true) /\
  (converged out = false -> iter out = max_iter).
Proof.
  intro E. apply run_inv in E as (h & L & _).
  apply loop_result in L as (j & Hr & tail & _ & _ & _ & _ & _ & Ec).
  destruct (converged out).
  - destruct Ec as (Hj & -> & Ht). simpl.
    repeat split; try lia; try assumption; try discriminate.
  - destruct Ec as (_ & ->). repeat split; try lia; try discriminate.
Qed.

(** X5: The returned [fx] is [f] at the returned [x], and the returned [x] has
    the size of [x0]. *)
Theorem result_value_and_size (max_iter : nat) (save_history : bool)
  (out : BFGSOutput) :
  run max_iter save_history = Some out ->
  fx out = f (x out) /\ length (x out) = length x0.
Proof.
  intro E. apply run_inv in E as (h & L & Hfx & _). split; [exact Hfx|].
  apply loop_result in L as (j & Hr & tail & Ej & _).
  exact (proj1 (bodies_shape _ _ _ _ _ _ _ _ _ _ _ _ _ eq_refl
                  (eye_square (n x0)) Ej)).
Qed.

Lemma loop_ignores_history (max_iter : nat) (b b' : bool) (iters : list nat) :
  forall x H hist hist' xr c k h,
    loop max_iter b iters x H hist = Some (xr, c, k, h) ->
    exists h', loop max_iter b' iters x H hist' = Some (xr, c, k, h').
Proof.
  induction iters as [|i iters IH]; intros x H hist hist' xr c k h E;
    simpl in E |- *.
  - injection E as <- <- <- <-. eauto.
  - destruct (la_norm_lt (df x) tol) as [[|]|]; [| |discriminate].
    + injection E as <- <- <- <-. eauto.
    + destruct (body i x H) as [[x' H']|]; [|discriminate].
      exact (IH _ _ _ _ _ _ _ _ E).
Qed.

(** X6: Recording the history does not change the optimisation: a run with
    [save_history = True] and one with [save_history = False] return the same
    [x], [fx], [converged] and [iter], and the second has no history. *)
Theorem save_history_is_inert (max_iter : nat) (b b' : bool)
  (out : BFGSOutput) :
  run max_iter b = Some out ->
  exists out',
    run max_iter b' = Some out' /\
    x out' = x out /\ fx out' = fx out /\
    converged out' = converged out /\ iter out' = iter out /\
    (b' = false -> history out' = None).
Proof.
  intro E. apply run_inv in E as (h & L & Hfx & _).
  destruct (loop_ignores_history max_iter b b' _ _ _ _ [] _ _ _ _ L)
    as [h' L'].
  eexists. split; [apply bfgs_of_loop; exact L'|]. simpl.
  repeat split; try congruence. now intros ->.
Qed.

Lemma loop_history (max_iter len : nat) :
  forall s x H hist xr c k h,
    loop max_iter true (seq s len) x H hist = Some (xr, c, k, h) ->
    exists tail,
      h = hist ++ tail /\
      (forall i xi, nth_error tail i = Some xi ->
                    exists Hi, bodies s i x H = Some (xi, Hi)) /\
      (c = true -> s <= k /\ nth_error tail (k - s) = Some xr).
Proof.
  induction len as [|len IH]; intros s x H hist xr c k h E; simpl in E.
  - injection E as <- <- <- <-. exists []. rewrite app_nil_r.
    repeat split; try discriminate. intros [|i] xi Ei; discriminate Ei.
  - destruct (la_norm_lt (df x) tol) as [[|]|]; [| |discriminate].
    + injection E as <- <- <- <-. exists [x].
      split; [reflexivity|]. split.
      * intros [|[|i]] xi Ei; try discriminate Ei.
        injection Ei as <-. exists H. reflexivity.
      * intros _. rewrite Nat.sub_diag. split; [lia | reflexivity].
    + destruct (body s x H) as [[x' H']|] eqn:B; [|discriminate].
      apply IH in E as (tail & -> & Hn & Hc).
      exists (x :: tail). rewrite <- app_assoc.
      split; [reflexivity|]. split.
      * intros [|i] xi Ei; simpl in Ei.
        -- injection Ei as <-. exists H. reflexivity.
        -- destruct (Hn i xi Ei) as [Hi Eb]. exists Hi. simpl.
           now rewrite B.
      * intros ->. destruct (Hc eq_refl) as [Hk Ek]. split; [lia|].
        replace (k - s) with (S (k - S s)) by lia. exact Ek.
Qed.

(** X7: With [save_history = True] the history lists the iterates in order:
    entry [i] is the iterate at the start of iteration [i].  When the run
    converged, entry [n_iter] is the returned [x].  When the cap was reached,
    the returned [x] is the iterate after the last recorded one and is not
    itself recorded. *)
Theorem history_lists_iterates (max_iter : nat) (out : BFGSOutput) :
  run max_iter true = Some out ->
  exists h,
    history out = Some h /\
    (forall i xi, nth_error h i = Some xi ->
                  exists Hi, iterate_ i = Some (xi, Hi)) /\
    (converged out = true -> nth_error h (iter out) = Some (x out)) /\
    (converged out = false ->
     length h = max_iter /\
     exists Hm, iterate_ max_iter = Some (x out, Hm)).
Proof.
  intro E. apply run_inv in E as (h & L & _ & Hh). exists h.
  split; [exact Hh|].
  destruct (loop_history _ _ _ _ _ _ _ _ _ _ L) as (tail & Eh & Hn & Hc).
  simpl in Eh. subst tail.
  apply loop_result in L as (j & Hr & tail & Ej & _ & Eh & El & _ & Ec).
  simpl in Eh. subst tail.
  split; [exact Hn|]. split.
  - intro C. destruct (Hc C) as [_ Ek]. now rewrite Nat.sub_0_r in Ek.
  - intro C. rewrite C in *. destruct Ec as [-> _].
    split; [exact El|]. exists Hr. exact Ej.
Qed.

(** X8: A run that converged returns the same [x], [fx], [converged] and [iter]
    under every larger cap. *)
Theorem converged_run_is_stable (max_iter max_iter' : nat)
  (save_history : bool) (out : BFGSOutput) :
  run max_iter save_history = Some out ->
  converged out = true ->
  iter out < max_iter' ->
  exists out',
    run max_iter' save_history = Some out' /\
    x out' = x out /\ fx out' = fx out /\
    converged out' = true /\ iter out' = iter out.
Proof.
  intros E C Hlt. apply run_inv in E as (h & L & Hfx & _).
  apply loop_result in L as (j & Hr & tail & Ej & Hf & _ & _ & _ & Ec).
  rewrite C in Ec. destruct Ec as (_ & Ek & Ht). simpl in Ek.
  rewrite Ek in Hlt.
  destruct (loop_converges minimize_scalar la_norm_lt fuel f df x0 m
              armijo_param tol save_history max_iter' j max_iter' 0 x0
              (eye (n x0)) [] (x out) Hr Hlt Ej Hf Ht) as [h' L'].
  eexists. split; [apply bfgs_of_loop; exact L'|]. simpl.
  repeat split; congruence.
Qed.

End RunExtras.

(** X9: With a tolerance that is zero, negative or [NaN] the test
    [norm(df(x)) < tol] never holds: every run uses all [max_iter] iterations
    and returns [converged = False]. *)
Theorem nonpositive_tol_never_converges
  (minimize_scalar : (xnum -> xnum) -> OptimizeResult) (fuel : nat)
  (f : vec -> xnum) (df : vec -> vec) (x0 : vec) (m : method)
  (armijo_param tol : xnum) (max_iter : nat) (save_history : bool)
  (out : BFGSOutput) :
  tol = NaN \/ xleb tol xzero = true ->
  bfgs minimize_scalar exact_norm_lt fuel f df x0 m armijo_param max_iter tol
       save_history = Some out ->
  converged out = false /\ iter out = max_iter.
Proof.
  intros Htol E. apply run_inv in E as (h & L & _).
  apply loop_result in L as (j & Hr & tail & _ & _ & _ & _ & _ & Ec).
  destruct (converged out).
  - destruct Ec as (_ & _ & Ht).
    now apply (exact_norm_lt_nonpositive _ _ Htol) in Ht.
  - destruct Ec as (_ & ->). now split.
Qed.

(** The run of the notebook's objective from [(1, 1)] with the full step,
    cap 20 and recorded history. *)
Lemma sheet_run :
  exists out,
    bfgs minimize_scalar_stub exact_norm_lt 0 Sheet.f Sheet.df [xone; xone]
         Full xhalf 20 tol_default true = Some out /\
    converged out = true /\ iter out = 2.
Proof.
  eexists. split; [vm_compute; reflexivity|]. split; vm_compute; reflexivity.
Qed.

Lemma converged_flag_sound_witness :
  exists out,
    bfgs minimize_scalar_stub exact_norm_lt 0 Sheet.f Sheet.df [xone; xone]
         Full xhalf 20 tol_default true = Some out /\
    iter out <= 20 /\
    (converged out = true ->
     iter out < 20 /\
     exact_norm_lt (Sheet.df (x out)) tol_default = Some true) /\
    (converged out = false -> iter out = 20).
Proof.
  destruct sheet_run as (out & E & _). exists out. split; [exact E|].
  exact (converged_flag_sound minimize_scalar_stub exact_norm_lt 0 Sheet.f
           Sheet.df [xone; xone] Full xhalf tol_default 20 true out E).
Defined.

Lemma result_value_and_size_witness :
  exists out,
    bfgs minimize_scalar_stub exact_norm_lt 0 Sheet.f Sheet.df [xone; xone]
         Full xhalf 20 tol_default true = Some out /\
    fx out = Sheet.f (x out) /\ length (x out) = 2.
Proof.
  destruct sheet_run as (out & E & _). exists out. split; [exact E|].
  exact (result_value_and_size minimize_scalar_stub exact_norm_lt 0 Sheet.f
           Sheet.df [xone; xone] Full xhalf tol_default 20 true out E).
Defined.

Lemma save_history_is_inert_witness :
  exists out out',
    bfgs minimize_scalar_stub exact_norm_lt 0 Sheet.f Sheet.df [xone; xone]
         Full xhalf 20 tol_default true = Some out /\
    bfgs minimize_scalar_stub exact_norm_lt 0 Sheet.f Sheet.df [xone; xone]
         Full xhalf 20 tol_default false = Some out' /\
    x out' = x out /\ fx out' = fx out /\
    converged out' = converged out /\ iter out' = iter out /\
    history out' = None.
Proof.
  destruct sheet_run as (out & E & _).
  destruct (save_history_is_inert minimize_scalar_stub exact_norm_lt 0 Sheet.f
              Sheet.df [xone; xone] Full xhalf tol_default 20 true false out E)
    as (out' & E' & Hx & Hfx & Hc & Hi & Hh).
  exists out, out'. repeat split; try assumption. now apply Hh.
Defined.

Lemma history_lists_iterates_witness :
  exists out h,
    bfgs minimize_scalar_stub exact_norm_lt 0 Sheet.f Sheet.df [xone; xone]
         Full xhalf 20 tol_default true = Some out /\
    history out = Some h /\
    nth_error h 2 = Some (x out).
Proof.
  destruct sheet_run as (out & E & Hc & Hi).
  destruct (history_lists_iterates minimize_scalar_stub exact_norm_lt 0
              Sheet.f Sheet.df [xone; xone] Full xhalf tol_default 20 out E)
    as (h & Hh & _ & Hlast & _).
  exists out, h. split; [exact E|]. split; [exact Hh|].
  rewrite <- Hi. exact (Hlast Hc).
Defined.

Lemma converged_run_is_stable_witness :
  exists out out',
    bfgs minimize_scalar_stub exact_norm_lt 0 Sheet.f Sheet.df [xone; xone]
         Full xhalf 20 tol_default true = Some out /\
    bfgs minimize_scalar_stub exact_norm_lt 0 Sheet.f Sheet.df [xone; xone]
         Full xhalf 50 tol_default true = Some out' /\
    x out' = x out /\ fx out' = fx out /\
    converged out' = true /\ iter out' = iter out.
Proof.
  destruct sheet_run as (out & E & Hc & Hi).
  destruct (converged_run_is_stable minimize_scalar_stub exact_norm_lt 0
              Sheet.f Sheet.df [xone; xone] Full xhalf tol_default 20 50 true
              out E Hc)
    as (out' & E' & H').
  - rewrite Hi. lia.
  - exists out, out'. split; [exact E|]. split; [exact E'|]. exact H'.
Defined.

Lemma nonpositive_tol_never_converges_witness :
  exists out,
    bfgs minimize_scalar_stub exact_norm_lt 0 Sheet.f Sheet.df [xone; xone]
         Full xhalf 4 xzero false = Some out /\
    converged out = false /\ iter out = 4.
Proof.
  assert (E : exists out,
             bfgs minimize_scalar_stub exact_norm_lt 0 Sheet.f Sheet.df
                  [xone; xone] Full xhalf 4 xzero false = Some out).
  { eexists. vm_compute. reflexivity. }
  destruct E as (out & E). exists out. split; [exact E|].
  apply (nonpositive_tol_never_converges minimize_scalar_stub 0 Sheet.f
           Sheet.df [xone; xone] Full xhalf xzero 4 false out).
  - right. vm_compute. reflexivity.
  - exact E.
Defined.

(** ** What the update does in dimensions 1 and 2, and the first step *)

Ltac qc_eval :=
  cbn -[Qcplus Qcmult Qcopp Qcminus Qcdiv Qcinv Q2Qc Qc_eq_bool Qccompare].

Ltac qc_struct :=
  repeat match goal with
         | |- Some _ = Some _ => apply (f_equal Some)
         | |- (_, _) = (_, _) => apply (f_equal2 pair)
         | |- _ :: _ = _ :: _ => apply (f_equal2 cons)
         | |- Fin _ = Fin _ => apply (f_equal Fin)
         | |- @nil _ = @nil _ => reflexivity
         end.

Lemma conjugate_two_by_two (a b c d : Qc) :
  conjugate 2 xone [[Fin a; Fin b]; [Fin c; Fin d]]
  = [[Fin d; Fin c]; [Fin b; Fin a]].
Proof. unfold conjugate. qc_eval. qc_struct; ring. Qed.

Lemma conjugate_one_by_one (h : Qc) :
  conjugate 1 xone [[Fin h]] = [[Fin 0]].
Proof. unfold conjugate. qc_eval. qc_struct; ring. Qed.

Section SmallDimensions.

Variable minimize_scalar : (xnum -> xnum) -> OptimizeResult.
Variable fuel : nat.
Variable f : vec -> xnum.
Variable df : vec -> vec.
Variable x0 : vec.
Variable m : method.
Variable armijo_param : xnum.

Local Abbreviation body := (bfgs_body minimize_scalar fuel f df x0 m armijo_param).

(** The body, with the step size it used. *)
Lemma body_inv_step (k : nat) (x : vec) (H_inv : matrix) (x' : vec)
  (H_inv' : matrix) :
  body k x H_inv = Some (x', H_inv') ->
  exists alpha evals,
    bfgs_step minimize_scalar f df x (mat_vec (mat_neg H_inv) (df x))
              armijo_param fuel m = Some (alpha, evals) /\
    x' = vec_add x (vec_scale alpha (mat_vec (mat_neg H_inv) (df x))).
Proof.
  unfold bfgs_body. intro B.
  destruct (bfgs_step _ _ _ _ _ _ _ _) as [[a e]|]; [|discriminate].
  cbv zeta in B. injection B as Ex _. exists a, e. split; [reflexivity|].
  now symmetry.
Qed.

(** X13: In dimension 2, when the scalar [rho * p @ q.T] of a pass is exactly
    1, the update only reverses the rows and the columns of a finite [H_inv]
    ([H_inv] after the rescaling of the first iteration), whatever the
    secant pair is. *)
Theorem update_in_dimension_two (k : nat) (x x' : vec)
  (H_inv H_inv' : matrix) (a b c d : Qc) :
  n x0 = 2 ->
  bfgs_body minimize_scalar fuel f df x0 m armijo_param k x H_inv
  = Some (x', H_inv') ->
  let p := vec_sub x' x in
  let q := vec_sub (df x') (df x) in
  dot (vec_scale (xone / dot p q)%X p) q = xone ->
  (if k =? 0 then mat_scale H_inv (dot p q / dot q q)%X else H_inv)
  = [[Fin a; Fin b]; [Fin c; Fin d]] ->
  H_inv' = [[Fin d; Fin c]; [Fin b; Fin a]].
Proof.
  intros Hn B p q Hs HH. apply body_inv in B as (alpha & _ & ->). cbv zeta.
  fold p q. rewrite Hs, HH, Hn. apply conjugate_two_by_two.
Qed.

(** X14: In dimension 1, when the scalar [rho * p @ q.T] of a pass is exactly
    1, the update sets a finite [H_inv] ([H_inv] after the rescaling of the
    first iteration) to zero. *)
Theorem update_in_dimension_one (k : nat) (x x' : vec)
  (H_inv H_inv' : matrix) (h : Qc) :
  n x0 = 1 ->
  bfgs_body minimize_scalar fuel f df x0 m armijo_param k x H_inv
  = Some (x', H_inv') ->
  let p := vec_sub x' x in
  let q := vec_sub (df x') (df x) in
  dot (vec_scale (xone / dot p q)%X p) q = xone ->
  (if k =? 0 then mat_scale H_inv (dot p q / dot q q)%X else H_inv)
  = [[Fin h]] ->
  H_inv' = [[Fin 0]].
Proof.
  intros Hn B p q Hs HH. apply body_inv in B as (alpha & _ & ->). cbv zeta.
  fold p q. rewrite Hs, HH, Hn. apply conjugate_one_by_one.
Qed.

End SmallDimensions.

Lemma finite_nth (g : vec) (j : nat) :
  finite_vec g -> exists w, nth j g xzero = Fin w.
Proof.
  intro Hg. revert j. induction Hg as [|a g Ha _ IH]; intros [|j]; simpl;
    try (now exists 0%Qc).
  - destruct a; try discriminate Ha. eauto.
  - apply IH.
Qed.

Lemma neg_unit_row_before (i : nat) :
  forall g s, finite_vec g -> i < s ->
              dot (neg_unit_row i s (length g)) g = xzero.
Proof.
  intros g s Hg. revert s. induction Hg as [|a g Ha _ IH]; intros s Hlt;
    [reflexivity|].
  destruct a as [v| | |]; try discriminate Ha.
  unfold neg_unit_row in *. cbn [length seq map dot].
  rewrite (IH (S s)) by lia.
  replace (i =? s) with false by (symmetry; apply Nat.eqb_neq; lia).
  unfold xzero. cbn [xopp xmul xadd]. apply (f_equal Fin). ring.
Qed.

Lemma neg_unit_row_at (i : nat) :
  forall g s, finite_vec g -> s <= i -> i < s + length g ->
              dot (neg_unit_row i s (length g)) g = (- nth (i - s) g xzero)%X.
Proof.
  intros g s Hg. revert s.
  induction Hg as [|a g Ha Hg IH]; intros s Hle Hlt; [simpl in Hlt; lia|].
  destruct a as [v| | |]; try discriminate Ha.
  unfold neg_unit_row in *. cbn [length seq map dot].
  destruct (Nat.eq_dec i s) as [->|Hne].
  - rewrite Nat.eqb_refl, Nat.sub_diag.
    fold (neg_unit_row s (S s) (length g)).
    rewrite (neg_unit_row_before s g (S s) Hg) by lia.
    unfold xone, xzero. cbn [xopp xmul xadd nth]. apply (f_equal Fin). ring.
  - replace (i =? s) with false by (symmetry; now apply Nat.eqb_neq).
    cbn [length] in Hlt. rewrite (IH (S s)) by lia.
    replace (i - s) with (S (i - S s)) by lia. cbn [nth].
    destruct (finite_nth g (i - S s) Hg) as [w ->].
    unfold xzero. cbn [xopp xmul xadd]. apply (f_equal Fin). ring.
Qed.

Lemma map_nth_seq (f : xnum -> xnum) (g : vec) :
  map (fun i => f (nth i g xzero)) (seq 0 (length g)) = map f g.
Proof.
  induction g as [|a g IH]; [reflexivity|].
  cbn [length seq map nth]. f_equal.
  rewrite <- seq_shift, map_map. exact IH.
Qed.

(** [(- np.eye(n)) @ g = - g] for a finite [g] of size [n]. *)
Lemma neg_eye_mat_vec (g : vec) :
  finite_vec g -> mat_vec (mat_neg (eye (length g))) g = map xopp g.
Proof.
  intro Hg. unfold mat_vec, mat_neg, eye. rewrite !map_map.
  rewrite <- (map_nth_seq xopp g). apply map_ext_in. intros i Hi.
  apply in_seq in Hi.
  change (dot (neg_unit_row i 0 (length g)) g = (- nth i g xzero)%X).
  rewrite (neg_unit_row_at i g 0 Hg) by lia. now rewrite Nat.sub_0_r.
Qed.

Section FirstStep.

Variable minimize_scalar : (xnum -> xnum) -> OptimizeResult.
Variable fuel : nat.
Variable f : vec -> xnum.
Variable df : vec -> vec.
Variable x0 : vec.
Variable m : method.
Variable armijo_param : xnum.

Local Abbreviation body := (bfgs_body minimize_scalar fuel f df x0 m armijo_param).

(** X15: The first step is a steepest-descent step: with [H_inv = I] the search
    direction is [- df(x0)] (for a finite gradient of the size of [x0]), and
    the next iterate is [x0 - alpha * df(x0)] for the step size [alpha] that
    [bfgs_step] selects along that direction. *)
Theorem first_step_is_steepest_descent (x' : vec) (H_inv' : matrix) :
  length (df x0) = n x0 ->
  finite_vec (df x0) ->
  body 0 x0 (eye (n x0)) = Some (x', H_inv') ->
  exists alpha evals,
    bfgs_step minimize_scalar f df x0 (map xopp (df x0)) armijo_param fuel m
    = Some (alpha, evals) /\
    x' = vec_add x0 (vec_scale alpha (map xopp (df x0))).
Proof.
  intros Hl Hg B. apply body_inv_step in B as (alpha & evals & S & ->).
  rewrite <- Hl, (neg_eye_mat_vec _ Hg) in S |- *.
  exists alpha, evals. split; [exact S | reflexivity].
Qed.

(** A step size returned by the methods [full] and [Armijo] is finite. *)
Lemma step_finite (x d : vec) (alpha : xnum) (evals : nat) :
  m <> Exact ->
  bfgs_step minimize_scalar f df x d armijo_param fuel m = Some (alpha, evals) ->
  exists t, alpha = Fin t.
Proof.
  intros Hm S. destruct m; [|contradiction|]; unfold bfgs_step in S.
  - injection S as <- _. now exists 1%Qc.
  - rewrite <- alpha_at_start in S.
    apply armijo_while_inv in S as (k & _ & -> & _).
    exact (proj1 (alpha_at_range (0 + k))).
Qed.

(** X16: In dimension 1, once [H_inv] is zero the iterate does not move (for a
    finite iterate and gradient, methods [full] and [Armijo]), and the secant
    pair of that pass has [dot(p, q) == 0]. *)
Theorem zero_matrix_stalls (k : nat) (a g : Qc) (x' : vec)
  (H_inv' : matrix) :
  m <> Exact ->
  df [Fin a] = [Fin g] ->
  body k [Fin a] [[Fin 0]] = Some (x', H_inv') ->
  x' = [Fin a] /\
  dot (vec_sub x' [Fin a]) (vec_sub (df x') (df [Fin a])) = xzero.
Proof.
  intros Hm Hg B. apply body_inv_step in B as (alpha & evals & S & Ex).
  destruct (step_finite _ _ _ _ Hm S) as [t ->].
  assert (E : x' = [Fin a]).
  { rewrite Ex, Hg. qc_eval. qc_struct. ring. }
  split; [exact E|]. rewrite E, Hg. qc_eval. unfold xzero.
  apply (f_equal Fin). ring.
Qed.

End FirstStep.

(** On the notebook's objective from [(1, 1)] with
    [H_inv = [[1, 3], [4, 0]]] the secant pair is [p = (-8, -8)],
    [q = (-16, -16)], and [rho * p @ q.T = 2^-8 * 256] is exactly 1. *)
Lemma update_in_dimension_two_witness :
  exists x' H_inv',
    bfgs_body minimize_scalar_stub 0 Sheet.f Sheet.df [xone; xone] Full xhalf
              1 [xone; xone]
              [[Fin 1; Fin (Q2Qc 3)]; [Fin (Q2Qc 4); Fin 0]]
    = Some (x', H_inv') /\
    H_inv' = [[Fin 0; Fin (Q2Qc 4)]; [Fin (Q2Qc 3); Fin 1]].
Proof.
  assert (B : exists x' H_inv',
             bfgs_body minimize_scalar_stub 0 Sheet.f Sheet.df [xone; xone]
                       Full xhalf 1 [xone; xone]
                       [[Fin 1; Fin (Q2Qc 3)]; [Fin (Q2Qc 4); Fin 0]]
             = Some (x', H_inv') /\
             xeqb (dot (vec_scale
                          (xone / dot (vec_sub x' [xone; xone])
                                      (vec_sub (Sheet.df x')
                                               (Sheet.df [xone; xone])))%X
                          (vec_sub x' [xone; xone]))
                       (vec_sub (Sheet.df x') (Sheet.df [xone; xone])))
                  xone = true).
  { eexists _, _. split; vm_compute; reflexivity. }
  destruct B as (x' & H_inv' & B & Hs). apply xeqb_eq in Hs.
  exists x', H_inv'. split; [exact B|].
  exact (update_in_dimension_two minimize_scalar_stub 0 Sheet.f Sheet.df
           [xone; xone] Full xhalf 1 [xone; xone] x'
           [[Fin 1; Fin (Q2Qc 3)]; [Fin (Q2Qc 4); Fin 0]] H_inv' 1 (Q2Qc 3)
           (Q2Qc 4) 0 eq_refl B Hs eq_refl).
Defined.

(** On [f(x) = x[0]**2] from [(1)], first iteration: [p = (-2)], [q = (-4)],
    [rho * p @ q.T = 2^-3 * 8] is exactly 1 and the rescaled [H_inv] is
    [[0.5]]. *)
Lemma update_in_dimension_one_witness :
  exists x' H_inv',
    bfgs_body minimize_scalar_stub 0 Parabola.f Parabola.df [xone] Full xhalf
              0 [xone] [[Fin 1]] = Some (x', H_inv') /\
    H_inv' = [[Fin 0]].
Proof.
  assert (B : exists x' H_inv' h,
             bfgs_body minimize_scalar_stub 0 Parabola.f Parabola.df [xone]
                       Full xhalf 0 [xone] [[Fin 1]] = Some (x', H_inv') /\
             xeqb (dot (vec_scale
                          (xone / dot (vec_sub x' [xone])
                                      (vec_sub (Parabola.df x')
                                               (Parabola.df [xone])))%X
                          (vec_sub x' [xone]))
                       (vec_sub (Parabola.df x') (Parabola.df [xone])))
                  xone = true /\
             mat_eqb (mat_scale [[Fin 1]]
                        (dot (vec_sub x' [xone])
                             (vec_sub (Parabola.df x') (Parabola.df [xone]))
                         / dot (vec_sub (Parabola.df x') (Parabola.df [xone]))
                               (vec_sub (Parabola.df x') (Parabola.df [xone])))%X)
                     [[Fin h]] = true).
  { eexists _, _, (Q2Qc (1 # 2)). split; [vm_compute; reflexivity|].
    split; vm_compute; reflexivity. }
  destruct B as (x' & H_inv' & h & B & Hs & HH).
  apply xeqb_eq in Hs. apply mat_eqb_eq in HH.
  exists x', H_inv'. split; [exact B|].
  exact (update_in_dimension_one minimize_scalar_stub 0 Parabola.f
           Parabola.df [xone] Full xhalf 0 [xone] x' [[Fin 1]] H_inv' h
           eq_refl B Hs HH).
Defined.

Lemma first_step_is_steepest_descent_witness :
  exists x' H_inv' alpha,
    bfgs_body minimize_scalar_stub 0 Sheet.f Sheet.df [xone; xone] Full xhalf
              0 [xone; xone] (eye 2) = Some (x', H_inv') /\
    x' = vec_add [xone; xone]
                 (vec_scale alpha (map xopp (Sheet.df [xone; xone]))).
Proof.
  assert (B : exists x' H_inv',
             bfgs_body minimize_scalar_stub 0 Sheet.f Sheet.df [xone; xone]
                       Full xhalf 0 [xone; xone] (eye 2) = Some (x', H_inv')).
  { eexists _, _. vm_compute. reflexivity. }
  destruct B as (x' & H_inv' & B).
  destruct (first_step_is_steepest_descent minimize_scalar_stub 0 Sheet.f
              Sheet.df [xone; xone] Full xhalf x' H_inv' eq_refl)
    as (alpha & evals & _ & Ex).
  - repeat constructor.
  - exact B.
  - exists x', H_inv', alpha. split; [exact B | exact Ex].
Defined.

Lemma zero_matrix_stalls_witness :
  exists x' H_inv',
    bfgs_body minimize_scalar_stub 0 Parabola.f Parabola.df [xone] Full xhalf
              1 [Fin (Q2Qc 5)] [[Fin 0]] = Some (x', H_inv') /\
    x' = [Fin (Q2Qc 5)] /\
    dot (vec_sub x' [Fin (Q2Qc 5)])
        (vec_sub (Parabola.df x') (Parabola.df [Fin (Q2Qc 5)])) = xzero.
Proof.
  assert (B : exists x' H_inv',
             bfgs_body minimize_scalar_stub 0 Parabola.f Parabola.df [xone]
                       Full xhalf 1 [Fin (Q2Qc 5)] [[Fin 0]]
             = Some (x', H_inv')).
  { eexists _, _. vm_compute. reflexivity. }
  destruct B as (x' & H_inv' & B). exists x', H_inv'. split; [exact B|].
  apply (zero_matrix_stalls minimize_scalar_stub 0 Parabola.f Parabola.df
           [xone] Full xhalf 1 (Q2Qc 5) (Q2Qc 2 * Q2Qc 5)%Qc x' H_inv').
  - discriminate.
  - reflexivity.
  - exact B.
Defined.

(** ** Iterates accepted by the Armijo rule *)

Section ArmijoIterates.

Variable minimize_scalar : (xnum -> xnum) -> OptimizeResult.
Variable fuel : nat.
Variable f : vec -> xnum.
Variable df : vec -> vec.
Variable x0 : vec.
Variable armijo_param : xnum.

(** X17: With the method [Armijo], every iterate the loop accepts was reached
    by a step [alpha] at which the test of the backtracking loop is false:
    for the search direction [d], [x_new = x + alpha * d] and [f(x_new)] is
    not greater than [f(x) + armijo_param * alpha * dot(df(x), d)]; it is at
    most that value when neither of the two is [NaN]. *)
Theorem armijo_iterate_passes_test (i : nat) (x : vec) (H_inv : matrix)
  (x' : vec) (H_inv' : matrix) :
  bfgs_body minimize_scalar fuel f df x0 Armijo armijo_param i x H_inv
  = Some (x', H_inv') ->
  let d := mat_vec (mat_neg H_inv) (df x) in
  exists alpha evals,
    bfgs_step minimize_scalar f df x d armijo_param fuel Armijo
    = Some (alpha, evals) /\
    x' = vec_add x (vec_scale alpha d) /\
    xgtb (f x') (f x + armijo_param * alpha * dot (df x) d)%X = false /\
    (f x' <> NaN ->
     (f x + armijo_param * alpha * dot (df x) d)%X <> NaN ->
     xleb (f x') (f x + armijo_param * alpha * dot (df x) d)%X = true).
Proof.
  intros B d. apply body_inv_step in B as (alpha & evals & S & Ex).
  fold d in S, Ex. exists alpha, evals. split; [exact S|].
  split; [exact Ex|].
  unfold bfgs_step in S. apply armijo_while_exit in S.
  unfold armijo_test, line_search in S. rewrite <- Ex in S.
  split; [exact S|].
  intros Hl Hr. rewrite (xgtb_negb_xleb _ _ Hl Hr) in S.
  now destruct (xleb _ _).
Qed.

End ArmijoIterates.

Lemma armijo_iterate_passes_test_witness :
  exists x' H_inv' alpha,
    bfgs_body minimize_scalar_stub 3 Sheet.f Sheet.df [xone; xone] Armijo
              xhalf 0 [xone; xone] (eye 2) = Some (x', H_inv') /\
    x' = vec_add [xone; xone]
           (vec_scale alpha
              (mat_vec (mat_neg (eye 2)) (Sheet.df [xone; xone]))) /\
    xgtb (Sheet.f x')
         (Sheet.f [xone; xone]
          + xhalf * alpha
            * dot (Sheet.df [xone; xone])
                  (mat_vec (mat_neg (eye 2)) (Sheet.df [xone; xone])))%X
    = false.
Proof.
  assert (B : exists x' H_inv',
             bfgs_body minimize_scalar_stub 3 Sheet.f Sheet.df [xone; xone]
                       Armijo xhalf 0 [xone; xone] (eye 2)
             = Some (x', H_inv')).
  { eexists _, _. vm_compute. reflexivity. }
  destruct B as (x' & H_inv' & B).
  destruct (armijo_iterate_passes_test minimize_scalar_stub 3 Sheet.f
              Sheet.df [xone; xone] xhalf 0 [xone; xone] (eye 2) x' H_inv' B)
    as (alpha & evals & _ & Ex & Ef & _).
  exists x', H_inv', alpha. split; [exact B|]. split; [exact Ex | exact Ef].
Defined.
